(** * Coqtail's [xmlInterface.py]: the Coqtop XML codec, response framer and
    version dispatcher, embedded and verified.

    Conventions of the embedding.
    - A Python [bytes] object is a Rocq [string]: one [ascii] per octet.
    - A Python [str] is represented by the octets of its UTF-8 encoding, so
      [ET.tostring(..., 'utf-8')] and the decoding done by the XML parser do
      not change the representation.  Only ASCII digits and ASCII white space
      are recognised by [int()]; Python also accepts their Unicode variants.
    - A Python call either returns or raises: the [py] monad.  The limits
      of the interpreter (recursion depth, the digits of an integer that
      [str] and [int] accept) are not modelled.
    - [xml.etree.ElementTree.Element] is the record [Element]; its [attrib]
      dict is a [gmap string string]. *)

From Stdlib Require Import ZArith String Ascii Decimal DecimalString DecimalPos DecimalZ Lia.
From stdpp Require Import base option list strings gmap.

Local Open Scope string_scope.
Local Open Scope Z_scope.

(** ** Exceptions and the monad of Python calls *)

Inductive exn : Type :=
| ValueError (msg : string)
| IndexError
| TypeError
| AttributeError
| AssertionError.

Inductive py (A : Type) : Type :=
| Return (a : A)
| Raise (e : exn).
Arguments Return {A} a.
Arguments Raise {A} e.

#[global] Instance py_ret : MRet py := fun _ a => Return a.
#[global] Instance py_bind : MBind py := fun _ _ f m =>
  match m with
  | Return a => f a
  | Raise e => Raise e
  end.

(** [list(map(f, xs))] for an [f] that may raise: the first exception wins. *)
Definition mapM {A B : Type} (f : A -> py B) : list A -> py (list B) :=
  fix go (l : list A) : py (list B) :=
    match l with
    | [] => Return []
    | x :: l' => y ← f x; ys ← go l'; Return (y :: ys)
    end.

(** [k(next(x for x in l if p(x)))], with [d] when there is no such [x]. *)
Definition find_then {A B : Type} (p : A -> bool) (k : A -> B) (d : B)
  : list A -> B :=
  fix go (l : list A) : B :=
    match l with
    | [] => d
    | x :: l' => if p x then k x else go l'
    end.

(** ** Python string primitives *)

Definition sjoin (sep : string) : list string -> string :=
  fix go (l : list string) : string :=
    match l with
    | [] => ""
    | [s] => s
    | s :: l' => s ++ sep ++ go l'
    end.

(** [s.startswith(p)] *)
Fixpoint startswith (p s : string) : bool :=
  match p, s with
  | "", _ => true
  | String a p', String b s' => if Ascii.eqb a b then startswith p' s' else false
  | String _ _, "" => false
  end.

(** [p in s] *)
Fixpoint contains (p s : string) : bool :=
  startswith p s ||
  match s with
  | "" => false
  | String _ s' => contains p s'
  end.

(** [s.replace(old, new)]: every non-overlapping occurrence, left to right.
    [skip] counts the characters of a match still to be dropped.  For an
    empty [old] Python inserts [new] before every character and at the end. *)
Fixpoint replace_from (old new : string) (skip : nat) (s : string) : string :=
  match s with
  | "" => ""
  | String c s' =>
      match skip with
      | S k => replace_from old new k s'
      | O =>
          if startswith old s
          then new ++ replace_from old new (Nat.pred (String.length old)) s'
          else String c (replace_from old new 0 s')
      end
  end.

Fixpoint intersperse_str (new s : string) : string :=
  match s with
  | "" => new
  | String c s' => new ++ String c (intersperse_str new s')
  end.

Definition replace (old new s : string) : string :=
  match old with
  | "" => intersperse_str new s
  | _ => replace_from old new 0 s
  end.

(** [s.split(sep)] for a one-character separator: never an empty list. *)
Fixpoint split (sep : ascii) (s : string) : list string :=
  match s with
  | "" => [""]
  | String c s' =>
      if Ascii.eqb c sep then "" :: split sep s'
      else match split sep s' with
           | w :: ws => String c w :: ws
           | [] => [String c ""]
           end
  end.

Definition is_digit (c : ascii) : bool :=
  let n := nat_of_ascii c in ((48 <=? n) && (n <=? 57))%nat.

(** The white space [str.strip] and [int] drop (ASCII part). *)
Definition is_space (c : ascii) : bool :=
  let n := nat_of_ascii c in
  (((9 <=? n) && (n <=? 13)) || ((28 <=? n) && (n <=? 32)))%nat.

Fixpoint lstrip (s : string) : string :=
  match s with
  | String c s' => if is_space c then lstrip s' else s
  | "" => ""
  end.

Fixpoint rstrip (s : string) : string :=
  match s with
  | "" => ""
  | String c s' =>
      match rstrip s' with
      | "" => if is_space c then "" else String c ""
      | r => String c r
      end
  end.

Definition strip (s : string) : string := rstrip (lstrip s).

(** [s.lower()] on ASCII letters. *)
Definition lower_ascii (c : ascii) : ascii :=
  let n := nat_of_ascii c in
  if ((65 <=? n) && (n <=? 90))%nat then ascii_of_nat (n + 32) else c.

Fixpoint lower (s : string) : string :=
  match s with
  | "" => ""
  | String c s' => String (lower_ascii c) (lower s')
  end.

(** ** Numbers and their text *)

Definition digit_of (c : ascii) : option (uint -> uint) :=
  match c with
  | "0" => Some D0 | "1" => Some D1 | "2" => Some D2 | "3" => Some D3
  | "4" => Some D4 | "5" => Some D5 | "6" => Some D6 | "7" => Some D7
  | "8" => Some D8 | "9" => Some D9
  | _ => None
  end%char.

(** The digits of an [int()] literal: a non-empty run of digits, single
    underscores allowed between two digits. *)
Fixpoint uint_of_digits (after_digit : bool) (s : string) : option uint :=
  match s with
  | "" => if after_digit then Some Nil else None
  | String c s' =>
      match digit_of c with
      | Some d => r ← uint_of_digits true s'; Some (d r)
      | None =>
          if Ascii.eqb c "_" && after_digit
          then uint_of_digits false s'
          else None
      end
  end.

(** [repr(s)], exact for text without quotes, backslashes and control
    characters; it only occurs inside error messages. *)
Definition repr (s : string) : string := "'" ++ s ++ "'".

(** [int(s)] for a [str]. *)
Definition int_of_str (s : string) : py Z :=
  let t := strip s in
  let r :=
    match t with
    | String "-" t' => d ← uint_of_digits false t'; Some (Z.of_int (Neg d))
    | String "+" t' => d ← uint_of_digits false t'; Some (Z.of_int (Pos d))
    | _ => d ← uint_of_digits false t; Some (Z.of_int (Pos d))
    end in
  match r with
  | Some z => Return z
  | None => Raise (ValueError ("invalid literal for int() with base 10: " ++ repr s))
  end.

(** [int(x)] where [x] is a [str] or [None] (such as [xml.text] and
    [xml.get(...)]). *)
Definition int_ (x : option string) : py Z :=
  match x with
  | Some s => int_of_str s
  | None => Raise TypeError
  end.

(** [str(n)] for an [int]. *)
Definition str_of_int (n : Z) : string := NilZero.string_of_int (Z.to_int n).

(** [str(b)] for a [bool]. *)
Definition str_of_bool (b : bool) : string := if b then "True" else "False".

(** [str(x)] where [x] is a [str] or [None]. *)
Definition str_of_opt (x : option string) : string := default "None" x.

(** ** Python values and the Coqtop types

    [PyTuple] is a plain tuple of any length ([()] is [PyTuple []]); the
    namedtuples of the source are constructors of their own.  [StateId]
    carries the integer the protocol puts there.  [PyObject cls] is an
    instance of any other class, [cls] being its qualified name. *)

#[local] Unset Elimination Schemes.
Inductive value : Type :=
| PyNone
| PyBool (b : bool)
| PyInt (n : Z)
| PyStr (s : string)
| PyList (l : list value)
| PyTuple (l : list value)
| Option (val : value)
| Inl (val : value)
| Inr (val : value)
| Goal (id hyp ccl : value)
| Goals (fg bg shelved given_up : value)
| Evar (info : value)
| OptionState (sync depr name val : value)
| OptionValue (val : value)
| StateId (id : Z)
| Status (path proofname allproofs proofnum : value)
| CoqInfo (coq_version protocol_version release_data compile_data : value)
| PyObject (cls : string).
#[local] Set Elimination Schemes.

(** Coqtop response types: the classes [Ok] and [Err]. *)
Inductive Response : Type :=
| Ok (val : value) (msg : string)
| Err (msg : string) (loc : Z * Z) (timed_out : bool).

Definition TIMEOUT_ERR : Response :=
  Err ("Coq timed out. You can change the timeout with " ++
       "<leader>ct and try again.") (-1, -1) true.

Definition is_ok (r : Response) : bool :=
  match r with
  | Ok _ _ => true
  | Err _ _ _ => false
  end.

(** [val.msg += s] *)
Definition add_msg (r : Response) (s : string) : Response :=
  match r with
  | Ok v m => Ok v (m ++ s)
  | Err m l t => Err (m ++ s) l t
  end.

(** [str(type(val))]; the namedtuples live in the module [xmlInterface]. *)
Definition type_str (v : value) : string :=
  let cls (name : string) := "<class '" ++ name ++ "'>" in
  match v with
  | PyNone => cls "NoneType"
  | PyBool _ => cls "bool"
  | PyInt _ => cls "int"
  | PyStr _ => cls "str"
  | PyList _ => cls "list"
  | PyTuple _ => cls "tuple"
  | Option _ => cls "xmlInterface.Option"
  | Inl _ => cls "xmlInterface.Inl"
  | Inr _ => cls "xmlInterface.Inr"
  | Goal _ _ _ => cls "xmlInterface.Goal"
  | Goals _ _ _ _ => cls "xmlInterface.Goals"
  | Evar _ => cls "xmlInterface.Evar"
  | OptionState _ _ _ _ => cls "xmlInterface.OptionState"
  | OptionValue _ => cls "xmlInterface.OptionValue"
  | StateId _ => cls "xmlInterface.StateId"
  | Status _ _ _ _ => cls "xmlInterface.Status"
  | CoqInfo _ _ _ _ => cls "xmlInterface.CoqInfo"
  | PyObject c => cls c
  end.

(** ** Helpers *)

Definition unexpected {A : Type} (expected : list string) (got : string) : py A :=
  Raise (ValueError ("Expected " ++ sjoin " or " expected ++ ", but got " ++ got)).

(** [isinstance(val, tuple) and not isinstance(val, namedtuples)] *)
Definition is_tuple (val : value) : bool :=
  match val with
  | PyTuple _ => true
  | _ => false
  end.

(** ** ElementTree elements *)

#[local] Unset Elimination Schemes.
Inductive Element : Type := mkElement {
  tag : string;
  attrib : gmap string string;
  text : option string;
  tail : option string;
  children : list Element
}.
#[local] Set Elimination Schemes.

(** [ET.Element(tag, attribs)] followed by [xml.extend(children)]. *)
Definition new_Element (tag : string) (attribs : gmap string string)
    (children : list Element) : Element :=
  mkElement tag attribs None None children.

(** [xml.text = s] *)
Definition set_text (xml : Element) (s : string) : Element :=
  mkElement (tag xml) (attrib xml) (Some s) (tail xml) (children xml).

(** [if t: yield t] *)
Definition yield_text (t : option string) : list string :=
  match t with
  | Some (String c s) => [String c s]
  | _ => []
  end.

(** [xml.itertext()]: the text of the element, then for each child its own
    text content followed by its tail. *)
Fixpoint itertext (xml : Element) : list string :=
  (yield_text (text xml) ++
   flat_map (fun e => itertext e ++ yield_text (tail e)) (children xml))%list.

(** [''.join(xml.itertext())] *)
Definition join_itertext (xml : Element) : string := sjoin "" (itertext xml).

(** ** [XmlInterfaceBase] *)

(** [{'val': val} if val is not None else {}] *)
Definition attribs_of (val : option string) : gmap string string :=
  match val with
  | Some v => {[ "val" := v ]}
  | None => ∅
  end.

(** [_build_xml(tag, val, children)], with [self._from_value] as a
    parameter.  [children] is a Python value: [None] (also the default)
    gives no child, a list gives one child per element, anything else is a
    single child. *)
Definition _build_xml (_from_value : value -> py Element)
    (tag : string) (val : option string) (children : value) : py Element :=
  let attribs := attribs_of val in
  children ←
    match children with
    | PyNone => Return []
    | PyList l => mapM _from_value l
    | _ => child ← _from_value children; Return [child]
    end;
  Return (new_Element tag attribs children).

Definition charmap : list (string * string) :=
  [("&nbsp;", " "); ("&apos;", "'"); ("&#40;", "("); ("&#41;", ")")].

Definition _unescape (cmd : string) : string :=
  fold_left (fun cmd '(escape, unescape) => replace escape unescape cmd)
            charmap cmd.

(** ** [XmlInterface86]: marshalling *)

(** [_from_value] calls [_build_xml], which calls [_from_value] back on the
    children.  For the recursion to be structural, the calls of
    [_build_xml] whose children are [None] or a list written in place are
    unfolded below; [_from_value_body] is the method as the source writes
    it, and [_from_value_eq] shows that the two agree on every value. *)
Definition childless (tag : string) (val : option string) : Element :=
  new_Element tag (attribs_of val) [].

Fixpoint _from_value (val : value) : py Element :=
  match val with
  | PyTuple [] => Return (childless "unit" None)
  | PyBool b => Return (childless "bool" (Some (lower (str_of_bool b))))
  | PyInt n => Return (set_text (childless "int" None) (str_of_int n))
  | PyStr s => Return (set_text (childless "string" None) s)
  | PyList l =>
      children ← mapM _from_value l;
      Return (new_Element "list" ∅ children)
  | PyTuple [_] => Raise IndexError
  | PyTuple (v0 :: v1 :: _) =>
      c0 ← _from_value v0; c1 ← _from_value v1;
      Return (new_Element "pair" ∅ [c0; c1])
  | Option v =>
      match v with
      | PyNone => Return (childless "option" (Some "none"))
      | _ => _build_xml _from_value "option" (Some "some") v
      end
  | Inl v => _build_xml _from_value "union" (Some "in_l") v
  | Inr v => _build_xml _from_value "union" (Some "in_r") v
  | StateId id => Return (childless "state_id" (Some (str_of_int id)))
  | _ => unexpected [] (type_str val)
  end.

Definition _from_value_body (_from_value : value -> py Element) (val : value)
  : py Element :=
  match val with
  | PyTuple [] => _build_xml _from_value "unit" None PyNone
  | PyBool b => _build_xml _from_value "bool" (Some (lower (str_of_bool b))) PyNone
  | PyInt n =>
      xml ← _build_xml _from_value "int" None PyNone;
      Return (set_text xml (str_of_int n))
  | PyStr s =>
      xml ← _build_xml _from_value "string" None PyNone;
      Return (set_text xml s)
  | PyList _ => _build_xml _from_value "list" None val
  | PyTuple (v0 :: l) =>
      match l with
      | v1 :: _ => _build_xml _from_value "pair" None (PyList [v0; v1])
      | [] => Raise IndexError
      end
  | Option v =>
      match v with
      | PyNone => _build_xml _from_value "option" (Some "none") PyNone
      | _ => _build_xml _from_value "option" (Some "some") v
      end
  | Inl v => _build_xml _from_value "union" (Some "in_l") v
  | Inr v => _build_xml _from_value "union" (Some "in_r") v
  | StateId id => _build_xml _from_value "state_id" (Some (str_of_int id)) PyNone
  | _ => unexpected [] (type_str val)
  end.

(** A namedtuple constructor applied to [*args]: a wrong number of
    arguments is a [TypeError]. *)
Definition apply3 (C : value -> value -> value -> value) (args : list value)
  : py value :=
  match args with
  | [a; b; c] => Return (C a b c)
  | _ => Raise TypeError
  end.

Definition apply4 (C : value -> value -> value -> value -> value)
    (args : list value) : py value :=
  match args with
  | [a; b; c; d] => Return (C a b c d)
  | _ => Raise TypeError
  end.

Fixpoint _to_value (xml : Element) : py value :=
  let xml_tag := tag xml in
  (* [f(self._to_value(xml[0]))] *)
  let first (f : value -> value) : py value :=
    match children xml with
    | c :: _ => v ← _to_value c; Return (f v)
    | [] => Raise IndexError
    end in
  if decide (xml_tag = "unit") then
    Return (PyTuple [])
  else if decide (xml_tag = "bool") then
    let val := attrib xml !! "val" in
    if decide (val = Some "true") then Return (PyBool true)
    else if decide (val = Some "false") then Return (PyBool false)
    else unexpected ["true"; "false"] (str_of_opt val)
  else if decide (xml_tag = "int") then
    n ← int_ (text xml); Return (PyInt n)
  else if decide (xml_tag = "string" ∨ xml_tag = "richpp") then
    Return (PyStr (join_itertext xml))
  else if decide (xml_tag = "list") then
    vs ← mapM _to_value (children xml); Return (PyList vs)
  else if decide (xml_tag = "pair") then
    vs ← mapM _to_value (children xml); Return (PyTuple vs)
  else if decide (xml_tag = "option") then
    let val := attrib xml !! "val" in
    if decide (val = Some "none") then Return (Option PyNone)
    else if decide (val = Some "some") then first Option
    else unexpected ["none"; "some"] (str_of_opt val)
  else if decide (xml_tag = "union") then
    let val := attrib xml !! "val" in
    if decide (val = Some "in_l") then first Inl
    else if decide (val = Some "in_r") then first Inr
    else unexpected ["in_l"; "in_r"] (str_of_opt val)
  else if decide (xml_tag = "goal") then
    mapM _to_value (children xml) ≫= apply3 Goal
  else if decide (xml_tag = "goals") then
    mapM _to_value (children xml) ≫= apply4 Goals
  else if decide (xml_tag = "evar") then
    first Evar
  else if decide (xml_tag = "option_state") then
    mapM _to_value (children xml) ≫= apply4 OptionState
  else if decide (xml_tag = "option_value") then
    first OptionValue
  else if decide (xml_tag = "state_id") then
    n ← int_ (attrib xml !! "val"); Return (StateId n)
  else if decide (xml_tag = "status") then
    mapM _to_value (children xml) ≫= apply4 Status
  else if decide (xml_tag = "coq_info") then
    mapM _to_value (children xml) ≫= apply4 CoqInfo
  else if decide (xml_tag = "message") then
    (* [xml.find('richpp')] is [None] without such a child, and
       [_to_value(None)] fails on [None.tag] *)
    find_then (fun c => bool_decide (tag c = "richpp"))
              _to_value (Raise AttributeError) (children xml)
  else
    unexpected [] xml_tag.

Definition _to_response (xml : Element) : py Response :=
  if decide (tag xml = "value") then
    let val := attrib xml !! "val" in
    if decide (val = Some "good") then
      match children xml with
      | c :: _ => v ← _to_value c; Return (Ok v "")
      | [] => Raise IndexError
      end
    else if decide (val = Some "fail") then
      loc_s ← from_option int_of_str (Return (-1)) (attrib xml !! "loc_s");
      loc_e ← from_option int_of_str (Return (-1)) (attrib xml !! "loc_e");
      let msg := join_itertext xml in
      Return (Err msg (loc_s, loc_e) false)
    else unexpected ["good"; "fail"] (str_of_opt val)
  else Raise AssertionError.

(** ** [ET.tostring]

    The serializer of the standard library, for the encodings [utf-8] and
    [us-ascii] (the default of the commands), which put no XML declaration
    in front.  Attributes are written in the order of [map_to_list]; the
    elements built here carry at most one. *)

Definition dquote : string := String "034"%char "".
Definition newline : string := String "010"%char "".

Definition _escape_cdata (text : string) : string :=
  replace ">" "&gt;" (replace "<" "&lt;" (replace "&" "&amp;" text)).

Definition _escape_attrib (text : string) : string :=
  replace (String "009"%char "") "&#09;"
    (replace newline "&#10;"
      (replace (String "013"%char "") "&#13;"
        (replace dquote "&quot;"
          (replace ">" "&gt;" (replace "<" "&lt;" (replace "&" "&amp;" text)))))).

Definition concat_str (l : list string) : string := sjoin "" l.

Fixpoint _serialize_xml (elem : Element) : string :=
  "<" ++ tag elem ++
  concat_str (map (fun '(k, v) => " " ++ k ++ "=" ++ dquote ++ _escape_attrib v ++ dquote)
                  (map_to_list (attrib elem))) ++
  (match yield_text (text elem), children elem with
   | [], [] => " />"
   | _, _ =>
       ">" ++ _escape_cdata (default "" (text elem)) ++
       concat_str (map _serialize_xml (children elem)) ++
       "</" ++ tag elem ++ ">"
   end) ++
  _escape_cdata (default "" (tail elem)).

Definition tostring (elem : Element) : string := _serialize_xml elem.

(** ** [XmlInterface86]: Coqtop commands (with the default encoding) *)

Definition init : py string :=
  xml ← _build_xml _from_value "call" (Some "Init") (Option PyNone);
  Return (tostring xml).

Definition add (cmd state : value) : py string :=
  xml ← _build_xml _from_value "call" (Some "Add")
          (PyTuple [PyTuple [cmd; PyInt (-1)]; PyTuple [state; PyBool true]]);
  Return (tostring xml).

Definition edit_at (state : value) : py string :=
  xml ← _build_xml _from_value "call" (Some "Edit_at") state;
  Return (tostring xml).

Definition query (cmd state : value) : py string :=
  xml ← _build_xml _from_value "call" (Some "Query") (PyTuple [cmd; state]);
  Return (tostring xml).

Definition goal : py string :=
  xml ← _build_xml _from_value "call" (Some "Goal") (PyTuple []);
  Return (tostring xml).

(** ** [ET.fromstring]

    The parser is the standard library's (expat feeding a [TreeBuilder]).
    What [raw_response] does with it is stated for every parser
    ([Section Framer]); the function below models it on the fragment of XML
    that Coqtop and [tostring] produce, so that the framer can be run on
    concrete buffers: elements, attributes in single or double quotes,
    character data, the five predefined entities and numeric character
    references, with white space alone allowed around the root.  Outside
    this fragment (comments, processing instructions, CDATA sections,
    DOCTYPE, namespaces, names that are not ASCII) it answers [None]. *)

Inductive event : Type :=
| StartEv (name : string) (attrs : list (string * string))
| EndEv (name : string)
| DataEv (data : string)
| RefEv (data : string).

Definition is_name_start (c : ascii) : bool :=
  let n := nat_of_ascii c in
  (((65 <=? n) && (n <=? 90)) || ((97 <=? n) && (n <=? 122)) || (n =? 95))%nat.

Definition is_name_char (c : ascii) : bool :=
  is_name_start c || is_digit c || Ascii.eqb c "-" || Ascii.eqb c ".".

(** White space of the XML grammar. *)
Definition is_xml_space (c : ascii) : bool :=
  let n := nat_of_ascii c in ((n =? 32) || (n =? 9) || (n =? 10) || (n =? 13))%nat.

(** A character allowed in a document (octets of multi-byte characters
    are let through). *)
Definition is_xml_char (c : ascii) : bool :=
  let n := nat_of_ascii c in (is_xml_space c || (32 <=? n))%nat.

Fixpoint span (p : ascii -> bool) (s : string) : string * string :=
  match s with
  | String c s' =>
      if p c then let '(a, b) := span p s' in (String c a, b) else ("", s)
  | "" => ("", "")
  end.

Definition read_name (s : string) : option (string * string) :=
  match s with
  | String c _ => if is_name_start c then Some (span is_name_char s) else None
  | "" => None
  end.

Definition skip_ws (s : string) : string := snd (span is_xml_space s).

(** The UTF-8 octets of a code point that XML allows. *)
Definition utf8 (n : N) : option string :=
  let oct (k : N) := ascii_of_N k in
  let cont (k : N) := oct (128 + k mod 64)%N in
  if ((n =? 9) || (n =? 10) || (n =? 13) || ((32 <=? n) && (n <? 128)))%N then
    Some (String (oct n) "")
  else if ((128 <=? n) && (n <? 2048))%N then
    Some (String (oct (192 + n / 64)%N) (String (cont n) ""))
  else if (((2048 <=? n) && (n <? 55296)) || ((57344 <=? n) && (n <? 65534)))%N then
    Some (String (oct (224 + n / 4096)%N)
            (String (cont (n / 64)%N) (String (cont n) "")))
  else if ((65536 <=? n) && (n <? 1114112))%N then
    Some (String (oct (240 + n / 262144)%N)
            (String (cont (n / 4096)%N)
               (String (cont (n / 64)%N) (String (cont n) ""))))
  else None.

Definition hex_digit (c : ascii) : option N :=
  let n := N_of_ascii c in
  if ((48 <=? n) && (n <=? 57))%N then Some (n - 48)%N
  else if ((65 <=? n) && (n <=? 70))%N then Some (n - 55)%N
  else if ((97 <=? n) && (n <=? 102))%N then Some (n - 87)%N
  else None.

Fixpoint number (base : N) (acc : N) (s : string) : option N :=
  match s with
  | "" => Some acc
  | String c s' =>
      d ← hex_digit c;
      if (d <? base)%N then number base (base * acc + d)%N s' else None
  end.

(** The replacement text of the reference [&name;]. *)
Definition reference (name : string) : option string :=
  if decide (name = "lt") then Some "<"
  else if decide (name = "gt") then Some ">"
  else if decide (name = "amp") then Some "&"
  else if decide (name = "quot") then Some dquote
  else if decide (name = "apos") then Some "'"
  else match name with
       | String "#" (String "x" (String c h)) => number 16 0 (String c h) ≫= utf8
       | String "#" (String c d) => number 10 0 (String c d) ≫= utf8
       | _ => None
       end.

(** After an ampersand: the reference up to its semicolon, resolved. *)
Definition read_ref (s : string) : option (string * string) :=
  let '(name, rest) := span (fun c => negb (Ascii.eqb c ";")) s in
  match rest with
  | String _ rest' => r ← reference name; Some (r, rest')
  | "" => None
  end.

(** An attribute value up to the closing [quote]: references resolved,
    literal white space turned into spaces, no [<]. *)
Fixpoint read_value (fuel : nat) (quote : ascii) (s : string)
  : option (string * string) :=
  match fuel, s with
  | S fuel', String c s' =>
      if Ascii.eqb c quote then Some ("", s')
      else if Ascii.eqb c "<" then None
      else if Ascii.eqb c "&" then
        '(r, s'') ← read_ref s';
        '(v, rest) ← read_value fuel' quote s'';
        Some (r ++ v, rest)
      else if negb (is_xml_char c) then None
      else
        let s'' := if Ascii.eqb c "013" && startswith newline s'
                   then String.substring 1 (String.length s') s' else s' in
        '(v, rest) ← read_value fuel' quote s'';
        Some (String (if is_xml_space c then " "%char else c) v, rest)
  | _, _ => None
  end.

(** The attributes of a start tag, after its name, up to [>] or [/>]
    (the flag tells which).  Attributes are preceded by white space and
    none is given twice. *)
Fixpoint read_attrs (fuel : nat) (s : string)
  : option (list (string * string) * bool * string) :=
  match fuel with
  | O => None
  | S fuel' =>
      let s1 := skip_ws s in
      match s1 with
      | String ">" rest => Some ([], false, rest)
      | String "/" (String ">" rest) => Some ([], true, rest)
      | _ =>
          if (String.length s1 =? String.length s)%nat then None
          else
            '(name, s2) ← read_name s1;
            match skip_ws s2 with
            | String "=" s3 =>
                match skip_ws s3 with
                | String q s4 =>
                    if Ascii.eqb q "034" || Ascii.eqb q "'" then
                      '(v, s5) ← read_value (String.length s4) q s4;
                      '(attrs, empty, rest) ← read_attrs fuel' s5;
                      if existsb (fun kv => String.eqb kv.1 name) attrs then None
                      else Some ((name, v) :: attrs, empty, rest)
                    else None
                | "" => None
                end
            | _ => None
            end
      end
  end.

(** The events expat reports for a document, in order; [RefEv] is the
    character data a reference stands for. *)
Fixpoint lex (fuel : nat) (s : string) : option (list event) :=
  match fuel, s with
  | _, "" => Some []
  | O, _ => None
  | S fuel', String c rest =>
      if Ascii.eqb c "<" then
        match rest with
        | String "/" rest' =>
            '(name, r1) ← read_name rest';
            match skip_ws r1 with
            | String ">" r2 => evs ← lex fuel' r2; Some (EndEv name :: evs)
            | _ => None
            end
        | _ =>
            '(name, r1) ← read_name rest;
            '(attrs, empty, r2) ← read_attrs (S (String.length r1)) r1;
            evs ← lex fuel' r2;
            Some (StartEv name attrs :: (if empty : bool then [EndEv name] else []) ++ evs)%list
        end
      else if Ascii.eqb c "&" then
        '(r, r1) ← read_ref rest;
        evs ← lex fuel' r1; Some (RefEv r :: evs)
      else if negb (is_xml_char c) || startswith "]]>" s then None
      else if Ascii.eqb c "013" then
        (* a carriage return, with the line feed after it if any, is a
           line feed *)
        evs ← lex fuel' (if startswith newline rest
                         then String.substring 1 (String.length rest) rest
                         else rest);
        Some (DataEv newline :: evs)
      else
        evs ← lex fuel' rest; Some (DataEv (String c "") :: evs)
  end.

(** The [TreeBuilder]: [stack] holds the open elements, innermost first,
    each with its children so far in reverse order. *)
Definition add_data (e : Element) (data : string) : Element :=
  match children e with
  | [] => mkElement (tag e) (attrib e) (Some (default "" (text e) ++ data))
                    (tail e) []
  | last :: cs =>
      mkElement (tag e) (attrib e) (text e) (tail e)
        (mkElement (tag last) (attrib last) (text last)
                   (Some (default "" (tail last) ++ data)) (children last) :: cs)
  end.

Definition close (e : Element) : Element :=
  mkElement (tag e) (attrib e) (text e) (tail e) (rev (children e)).

Definition add_child (parent child : Element) : Element :=
  mkElement (tag parent) (attrib parent) (text parent) (tail parent)
            (child :: children parent).

Fixpoint build (evs : list event) (stack : list Element) (root : option Element)
  : option Element :=
  match evs with
  | [] => match stack with [] => root | _ => None end
  | StartEv name attrs :: evs' =>
      match stack, root with
      | [], Some _ => None
      | _, _ => build evs' (new_Element name (list_to_map attrs) [] :: stack) root
      end
  | DataEv data :: evs' =>
      match stack with
      | [] => if forallb is_xml_space (list_ascii_of_string data)
              then build evs' [] root else None
      | e :: stack' => build evs' (add_data e data :: stack') root
      end
  | RefEv data :: evs' =>
      match stack with
      | [] => None
      | e :: stack' => build evs' (add_data e data :: stack') root
      end
  | EndEv name :: evs' =>
      match stack with
      | [] => None
      | e :: stack' =>
          if decide (tag e = name) then
            match stack' with
            | [] => build evs' [] (Some (close e))
            | parent :: stack'' => build evs' (add_child parent (close e) :: stack'') root
            end
          else None
      end
  end.

Definition ET_fromstring (data : string) : option Element :=
  evs ← lex (String.length data) data;
  build evs [] None.

(** ** [XmlInterface86.raw_response] *)

(** [for x in l: s = body(s, x)] *)
Definition for_each {S A : Type} (body : S -> A -> py S) : list A -> S -> py S :=
  fix go (l : list A) (s : S) : py S :=
    match l with
    | [] => Return s
    | x :: l' => s' ← body s x; go l' s'
    end.

(** [sep.join(l)] for a list of Python values: every item must be a [str]. *)
Definition str_join (sep : string) (l : list value) : py string :=
  strs ← mapM (fun v => match v with
                        | PyStr s => Return s
                        | _ => Raise TypeError
                        end) l;
  Return (sjoin sep strs).

(** One round of the loop over the responses; the state is [(val, msgs)]. *)
Definition raw_response_step (st : option Response * list value)
    (response : Element) : py (option Response * list value) :=
  let '(val, msgs) := st in
  val ← (if decide (tag response = "value")
         then r ← _to_response response; Return (Some r)
         else Return val);
  msgs ← (if decide (tag response = "message")
          then m ← _to_value response; Return (msgs ++ [m])%list
          else Return msgs);
  Return (val, msgs).

Section Framer.

(** [ET.fromstring]; [None] stands for [ET.ParseError]. *)
Variable fromstring : string -> option Element.

(** The result is [None] (not yet complete), an [Ok] or an [Err]. *)
Definition raw_response (data : string) : py (option Response) :=
  match fromstring ("<coqtoproot>" ++ _unescape data ++ "</coqtoproot>") with
  | None => Return None
  | Some responses =>
      '(val, msgs) ← for_each raw_response_step (children responses) (None, []);
      match val with
      | Some val =>
          s ← str_join (newline ++ newline) msgs;
          Return (Some (add_msg val s))
      | None => Return None
      end
  end.

End Framer.

(** ** The version dispatcher *)

Inductive interface : Type := XmlInterface86.

(** Comparison of tuples of integers, as Python orders them. *)
Fixpoint tuple_lt (a b : list Z) : bool :=
  match a, b with
  | _, [] => false
  | [], _ :: _ => true
  | x :: a', y :: b' => (x <? y) || ((x =? y) && tuple_lt a' b')
  end.

Fixpoint tuple_le (a b : list Z) : bool :=
  match a, b with
  | [], _ => true
  | _ :: _, [] => false
  | x :: a', y :: b' => (x <? y) || ((x =? y) && tuple_le a' b')
  end.

(** [int(re.match('[0-9]+', v).group(0))]: without a leading digit the
    match is [None], which has no [group]. *)
Definition leading_int (v : string) : py Z :=
  match fst (span is_digit v) with
  | "" => Raise AttributeError
  | digits => int_of_str digits
  end.

(** The tuple [versions] that [XmlInterface] compares. *)
Definition versions (version : string) : py (list Z) :=
  let versions := split "." (replace "pl" "." version) in
  versions ← mapM leading_int versions;
  Return (versions ++ replicate (3 - length versions) 0)%list.

Definition XmlInterface (version : string) : py interface :=
  versions ← versions version;
  if tuple_le [8; 6; 0] versions && tuple_lt versions [8; 7; 0]
  then Return XmlInterface86
  else Raise (ValueError ("Invalid version: " ++ version)).

(** ** The values that survive marshalling

    The shapes [_from_value] dispatches on, with pairs of exactly two
    components and with the payload of [Option], [Inl] and [Inr] neither
    [None] nor a list ([_build_xml] spreads a list over several children). *)
Fixpoint marshallable (v : value) : bool :=
  let payload (x : value) : bool :=
    match x with
    | PyNone | PyList _ => false
    | _ => marshallable x
    end in
  match v with
  | PyBool _ | PyInt _ | PyStr _ | StateId _ => true
  | PyList l => forallb marshallable l
  | PyTuple [] => true
  | PyTuple [a; b] => marshallable a && marshallable b
  | Option PyNone => true
  | Option x | Inl x | Inr x => payload x
  | _ => false
  end.

(** Every [pair] node of a tree has exactly two children. *)
Fixpoint pairs_binary (xml : Element) : bool :=
  (if decide (tag xml = "pair") then (length (children xml) =? 2)%nat else true)
  && forallb pairs_binary (children xml).

(** The runtime type of [v] is one [_from_value] dispatches on. *)
Definition dispatched (v : value) : bool :=
  match v with
  | PyBool _ | PyInt _ | PyStr _ | PyList _ | PyTuple _
  | Option _ | Inl _ | Inr _ | StateId _ => true
  | _ => false
  end.

(** The tags [_to_value] dispatches on. *)
Definition decoder_tags : list string :=
  ["unit"; "bool"; "int"; "string"; "richpp"; "list"; "pair"; "option";
   "union"; "goal"; "goals"; "evar"; "option_state"; "option_value";
   "state_id"; "status"; "coq_info"; "message"].

(** The leading run of digits of a component, and the number a run of
    digits denotes in base ten. *)
Definition leading_digits (v : string) : string := fst (span is_digit v).

Fixpoint decimal_from (acc : Z) (s : string) : Z :=
  match s with
  | "" => acc
  | String c s' => decimal_from (10 * acc + (Z.of_nat (nat_of_ascii c) - 48)) s'
  end.

Definition decimal_value (s : string) : Z := decimal_from 0 s.

(** The lexicographic order on version triples. *)
Definition triple_lt (x y : Z * Z * Z) : Prop :=
  let '(a, b, c) := x in
  let '(a', b', c') := y in
  a < a' ∨ (a = a' ∧ (b < b' ∨ (b = b' ∧ c < c'))).

Definition triple_le (x y : Z * Z * Z) : Prop := triple_lt x y ∨ x = y.

(** [p] occurs in [s] as a contiguous run. *)
Definition occurs (p s : string) : Prop := ∃ a b : string, s = a ++ p ++ b.

(** No character of [s] is white space; all of them are digits. *)
Definition no_space (s : string) : bool :=
  forallb (fun c => negb (is_space c)) (list_ascii_of_string s).

Definition all_digits (s : string) : bool :=
  forallb is_digit (list_ascii_of_string s).

(** The number a [Decimal.uint] denotes, digit by digit from the left. *)
Fixpoint uint_from (acc : Z) (d : uint) : Z :=
  match d with
  | Nil => acc
  | D0 d => uint_from (10 * acc + 0) d | D1 d => uint_from (10 * acc + 1) d
  | D2 d => uint_from (10 * acc + 2) d | D3 d => uint_from (10 * acc + 3) d
  | D4 d => uint_from (10 * acc + 4) d | D5 d => uint_from (10 * acc + 5) d
  | D6 d => uint_from (10 * acc + 6) d | D7 d => uint_from (10 * acc + 7) d
  | D8 d => uint_from (10 * acc + 8) d | D9 d => uint_from (10 * acc + 9) d
  end.

(** Whatever [_from_value] builds from [v] has only binary [pair] nodes. *)
Definition emits_binary (v : value) : Prop :=
  ∀ xml, _from_value v = Return xml → pairs_binary xml = true.

(** ** Prefixes of a buffer *)

(** An element without the text that follows it: the decoders never look
    at the tail of the element they are given. *)
Definition untail (c : Element) : Element :=
  mkElement (tag c) (attrib c) (text c) None (children c).

(** What an XML parser gives for a well-formed prefix of a buffer: the
    elements under [root1] are the first ones under [rootB], but for the
    text after them, which the cut may shorten. *)
Definition reads_prefix (root1 rootB : Element) : Prop :=
  ∃ k, map untail (children root1) = take k (map untail (children rootB)).

(** [data], wrapped in the synthetic root, is well-formed and has a
    [value] element among the children of the root. *)
Definition holds_value (fromstring : string → option Element) (data : string)
  : Prop :=
  ∃ root, fromstring ("<coqtoproot>" ++ _unescape data ++ "</coqtoproot>")
          = Some root ∧
          Exists (fun c => tag c = "value") (children root).

(** ** Vocabulary of the further properties *)

(** The fields of a namedtuple, in the order of its declaration. *)
Definition fields (v : value) : list value :=
  match v with
  | Option a | Inl a | Inr a | Evar a | OptionValue a => [a]
  | Goal a b c => [a; b; c]
  | Goals a b c d | OptionState a b c d | Status a b c d | CoqInfo a b c d =>
      [a; b; c; d]
  | StateId n => [PyInt n]
  | _ => []
  end.

(** The tags decoded field by field from all the children, with the
    namedtuple they give. *)
Definition record_class (tag : string) : option string :=
  if decide (tag = "goal") then Some "Goal"
  else if decide (tag = "goals") then Some "Goals"
  else if decide (tag = "option_state") then Some "OptionState"
  else if decide (tag = "status") then Some "Status"
  else if decide (tag = "coq_info") then Some "CoqInfo"
  else None.

(** The number of fields of that namedtuple. *)
Definition record_arity (tag : string) : nat :=
  if decide (tag = "goal") then 3%nat else 4%nat.

(** The tags decoded from the first child alone, with the namedtuple
    put around it, and the value of [val] they need (if any). *)
Definition wrapper_of (tag : string) (val : option string)
  : option (value → value) :=
  if decide (tag = "option" ∧ val = Some "some") then Some Option
  else if decide (tag = "union" ∧ val = Some "in_l") then Some Inl
  else if decide (tag = "union" ∧ val = Some "in_r") then Some Inr
  else if decide (tag = "evar") then Some Evar
  else if decide (tag = "option_value") then Some OptionValue
  else None.

(** The tags decoded by mapping [_to_value] over all the children. *)
Definition sequence_tags : list string :=
  ["list"; "pair"; "goal"; "goals"; "option_state"; "status"; "coq_info"].

(** The shape of one node of a tree written by the encoder: no tail, no
    attribute but [val], and, by tag, the text, the value of [val] and the
    children it may have.  The text of an [int] node and the [val] of a
    [state_id] node are what [str] prints for some integer. *)
Definition is_decimal (t : option string) : bool :=
  match t with
  | Some t =>
      match int_of_str t with
      | Return n => bool_decide (str_of_int n = t)
      | Raise _ => false
      end
  | None => false
  end.

Definition wire_node (xml : Element) : bool :=
  let tg := tag xml in
  let val := attrib xml !! "val" in
  let no_text := bool_decide (text xml = None) in
  let no_val := bool_decide (val = None) in
  let leaf := match children xml with [] => true | _ => false end in
  bool_decide (tail xml = None) &&
  bool_decide (delete "val" (attrib xml) = ∅) &&
  (if decide (tg = "unit") then no_text && no_val && leaf
   else if decide (tg = "bool") then
     no_text && leaf && bool_decide (val = Some "true" ∨ val = Some "false")
   else if decide (tg = "int") then no_val && leaf && is_decimal (text xml)
   else if decide (tg = "string") then
     no_val && leaf && bool_decide (is_Some (text xml))
   else if decide (tg = "list") then no_text && no_val
   else if decide (tg = "pair") then
     no_text && no_val && (length (children xml) =? 2)%nat
   else if decide (tg = "option") then
     no_text &&
     (bool_decide (val = Some "none") && leaf || bool_decide (val = Some "some"))
   else if decide (tg = "union") then
     no_text && bool_decide (val = Some "in_l" ∨ val = Some "in_r")
   else if decide (tg = "state_id") then no_text && leaf && is_decimal val
   else false).

Fixpoint wire_tree (xml : Element) : bool :=
  wire_node xml && forallb wire_tree (children xml).

Definition emits_wire (v : value) : Prop :=
  ∀ xml, _from_value v = Return xml → wire_tree xml = true.

(** The responses of the [value] elements among [cs] and the texts of
    the [message] elements among [cs], in the order of [cs]; [decodes c]
    says that [c], if it is one or the other, decodes without raising. *)
Definition value_responses (cs : list Element) : list Response :=
  omap (fun c => if decide (tag c = "value")
                 then match _to_response c with
                      | Return r => Some r
                      | Raise _ => None
                      end
                 else None) cs.

Definition message_texts (cs : list Element) : list string :=
  omap (fun c => if decide (tag c = "message")
                 then match _to_value c with
                      | Return (PyStr t) => Some t
                      | _ => None
                      end
                 else None) cs.

Definition decodes (c : Element) : Prop :=
  (tag c = "value" → ∃ r, _to_response c = Return r) ∧
  (tag c = "message" → ∃ v, _to_value c = Return v).

(** [s[k:]], and whether the character [x] is in [p]. *)
Fixpoint drop_str (k : nat) (s : string) : string :=
  match k, s with
  | S k', String _ s' => drop_str k' s'
  | _, _ => s
  end.

Definition has_char (x : ascii) (p : string) : bool :=
  existsb (Ascii.eqb x) (list_ascii_of_string p).

(** The number that the component of index [i] of a version stands
    for: the value of its leading digits, zero when there is no such
    component. *)
Definition component (i : nat) (comps : list string) : Z :=
  match comps !! i with
  | Some c => decimal_value (leading_digits c)
  | None => 0
  end.

(** The values the encoder accepts: built from the types it dispatches
    on, without one-element tuples, looking only where it looks (the
    first two components of a tuple; [None] allowed under [Option], [Inl]
    and [Inr]). *)
Fixpoint encodable (v : value) : bool :=
  let payload (x : value) : bool :=
    match x with
    | PyNone => true
    | _ => encodable x
    end in
  match v with
  | PyBool _ | PyInt _ | PyStr _ | StateId _ => true
  | PyList l => forallb encodable l
  | PyTuple [] => true
  | PyTuple (a :: b :: _) => encodable a && encodable b
  | Option x | Inl x | Inr x => payload x
  | _ => false
  end.

(** The two kinds of exception the encoder raises. *)
Definition encoder_error (e : exn) : Prop :=
  e = IndexError ∨ ∃ msg, e = ValueError msg.

Definition encoder_domain (v : value) : Prop :=
  (encodable v = true → ∃ xml, _from_value v = Return xml) ∧
  (encodable v = false → ∃ e, _from_value v = Raise e ∧ encoder_error e).

(** The values of the protocol: no [None] but as the payload of
    [Option], and no object of another class, at any depth. *)
Fixpoint protocol_value (v : value) : bool :=
  match v with
  | PyNone | PyObject _ => false
  | PyBool _ | PyInt _ | PyStr _ | StateId _ => true
  | PyList l | PyTuple l => forallb protocol_value l
  | Option PyNone => true
  | Option x | Inl x | Inr x | Evar x | OptionValue x => protocol_value x
  | Goal a b c => protocol_value a && protocol_value b && protocol_value c
  | Goals a b c d | OptionState a b c d | Status a b c d | CoqInfo a b c d =>
      protocol_value a && protocol_value b && protocol_value c
      && protocol_value d
  end.

Definition decodes_to_protocol (xml : Element) : Prop :=
  ∀ v, _to_value xml = Return v → protocol_value v = true.

(** * Properties *)

(** ** Induction on values, through the lists they nest *)

Section value_ind.
Variable P : value -> Prop.
Hypothesis HNone : P PyNone.
Hypothesis HBool : ∀ b, P (PyBool b).
Hypothesis HInt : ∀ n, P (PyInt n).
Hypothesis HStr : ∀ s, P (PyStr s).
Hypothesis HList : ∀ l, Forall P l → P (PyList l).
Hypothesis HTuple : ∀ l, Forall P l → P (PyTuple l).
Hypothesis HOption : ∀ v, P v → P (Option v).
Hypothesis HInl : ∀ v, P v → P (Inl v).
Hypothesis HInr : ∀ v, P v → P (Inr v).
Hypothesis HGoal : ∀ a b c, P a → P b → P c → P (Goal a b c).
Hypothesis HGoals : ∀ a b c d, P a → P b → P c → P d → P (Goals a b c d).
Hypothesis HEvar : ∀ v, P v → P (Evar v).
Hypothesis HOptionState :
  ∀ a b c d, P a → P b → P c → P d → P (OptionState a b c d).
Hypothesis HOptionValue : ∀ v, P v → P (OptionValue v).
Hypothesis HStateId : ∀ n, P (StateId n).
Hypothesis HStatus : ∀ a b c d, P a → P b → P c → P d → P (Status a b c d).
Hypothesis HCoqInfo : ∀ a b c d, P a → P b → P c → P d → P (CoqInfo a b c d).
Hypothesis HObject : ∀ c, P (PyObject c).

Fixpoint value_ind (v : value) : P v :=
  let all := fix all (l : list value) : Forall P l :=
    match l with
    | [] => List.Forall_nil P
    | x :: l' => List.Forall_cons P x l' (value_ind x) (all l')
    end in
  match v with
  | PyNone => HNone
  | PyBool b => HBool b
  | PyInt n => HInt n
  | PyStr s => HStr s
  | PyList l => HList l (all l)
  | PyTuple l => HTuple l (all l)
  | Option v => HOption v (value_ind v)
  | Inl v => HInl v (value_ind v)
  | Inr v => HInr v (value_ind v)
  | Goal a b c => HGoal a b c (value_ind a) (value_ind b) (value_ind c)
  | Goals a b c d =>
      HGoals a b c d (value_ind a) (value_ind b) (value_ind c) (value_ind d)
  | Evar v => HEvar v (value_ind v)
  | OptionState a b c d =>
      HOptionState a b c d (value_ind a) (value_ind b) (value_ind c) (value_ind d)
  | OptionValue v => HOptionValue v (value_ind v)
  | StateId n => HStateId n
  | Status a b c d =>
      HStatus a b c d (value_ind a) (value_ind b) (value_ind c) (value_ind d)
  | CoqInfo a b c d =>
      HCoqInfo a b c d (value_ind a) (value_ind b) (value_ind c) (value_ind d)
  | PyObject c => HObject c
  end.
End value_ind.

(** ** The monad and its list traversal *)

Lemma bind_Return {A B : Type} (f : A -> py B) (a : A) : Return a ≫= f = f a.
Proof. reflexivity. Qed.

Lemma bind_inv {A B : Type} (f : A -> py B) (m : py A) (b : B) :
  m ≫= f = Return b → ∃ a, m = Return a ∧ f a = Return b.
Proof. destruct m as [a|e]; [eauto | discriminate]. Qed.

Lemma mapM_cons {A B : Type} (f : A -> py B) (x : A) (l : list A) :
  mapM f (x :: l) = y ← f x; ys ← mapM f l; Return (y :: ys).
Proof. reflexivity. Qed.

Lemma mapM_Return {A B : Type} (f : A -> py B) (g : A -> B) (l : list A) :
  Forall (fun x => f x = Return (g x)) l → mapM f l = Return (map g l).
Proof.
  induction 1 as [|x l Hx _ IH]; [reflexivity|].
  rewrite mapM_cons, Hx, IH. reflexivity.
Qed.

Lemma mapM_length {A B : Type} (f : A -> py B) (l : list A) (ys : list B) :
  mapM f l = Return ys → length ys = length l.
Proof.
  revert ys; induction l as [|x l IH]; intros ys H.
  - injection H as <-. reflexivity.
  - rewrite mapM_cons in H.
    apply bind_inv in H as (y & _ & H). apply bind_inv in H as (ys' & Hl & H).
    injection H as <-. simpl. f_equal. auto.
Qed.

(** Encoding a list and decoding the result gives the list back when
    every element round-trips. *)
Lemma mapM_roundtrip {A B : Type} (f : A -> py B) (g : B -> py A) (l : list A) :
  Forall (fun x => f x ≫= g = Return x) l →
  ∃ ys, mapM f l = Return ys ∧ mapM g ys = Return l.
Proof.
  induction 1 as [|x l Hx _ (ys & Hf & Hg)].
  - exists []. split; reflexivity.
  - apply bind_inv in Hx as (y & Hy & Hgy).
    exists (y :: ys). split.
    + rewrite mapM_cons, Hy, Hf. reflexivity.
    + rewrite mapM_cons, Hgy, Hg. reflexivity.
Qed.

(** ** [_from_value] is the method of the source *)

Lemma _from_value_eq (val : value) :
  _from_value val = _from_value_body _from_value val.
Proof.
  destruct val as [| | | | |l|v|v|v| | | | | | | | |]; try reflexivity.
  - destruct l as [|a [|b l]]; try reflexivity.
    change (_from_value (PyTuple (a :: b :: l)))
      with (c0 ← _from_value a; c1 ← _from_value b;
            Return (new_Element "pair" ∅ [c0; c1])).
    unfold _from_value_body, _build_xml. rewrite !mapM_cons.
    destruct (_from_value a), (_from_value b); reflexivity.
Qed.

(** ** [int(str(n))] *)

Lemma uint_of_digits_string_of_uint (d : uint) (b : bool) :
  d ≠ Nil ∨ b = true →
  uint_of_digits b (NilEmpty.string_of_uint d) = Some d.
Proof.
  revert b; induction d; intros b Hb; simpl;
    try (rewrite IHd by (right; reflexivity); reflexivity).
  destruct Hb as [Hb | ->]; [congruence | reflexivity].
Qed.

Lemma rstrip_no_space (s : string) : no_space s = true → rstrip s = s.
Proof.
  unfold no_space. induction s as [|c s IH]; simpl; [reflexivity|].
  intros [Hc Hs]%andb_true_iff. rewrite (IH Hs).
  destruct s; [|reflexivity].
  apply negb_true_iff in Hc. rewrite Hc. reflexivity.
Qed.

Lemma strip_no_space (s : string) : no_space s = true → strip s = s.
Proof.
  intros H. unfold strip.
  assert (lstrip s = s) as ->; [|apply rstrip_no_space, H].
  destruct s as [|c s]; [reflexivity|].
  unfold no_space in H. simpl in H. apply andb_true_iff in H as [Hc _].
  apply negb_true_iff in Hc. simpl. rewrite Hc. reflexivity.
Qed.

Lemma string_of_uint_no_space (d : uint) :
  no_space (NilEmpty.string_of_uint d) = true.
Proof. induction d; simpl; auto. Qed.

Lemma string_of_uint_head (d : uint) :
  match NilEmpty.string_of_uint d with
  | String c _ => digit_of c ≠ None
  | "" => d = Nil
  end.
Proof. destruct d; simpl; congruence. Qed.

Lemma int_of_str_uint (d : uint) :
  d ≠ Nil → int_of_str (NilEmpty.string_of_uint d) = Return (Z.of_int (Pos d)).
Proof.
  intros Hd. unfold int_of_str.
  rewrite (strip_no_space _ (string_of_uint_no_space d)).
  pose proof (string_of_uint_head d) as Hh.
  pose proof (uint_of_digits_string_of_uint d false (or_introl Hd)) as Hu.
  destruct (NilEmpty.string_of_uint d) as [|c s]; [contradiction|].
  assert (c ≠ "-"%char ∧ c ≠ "+"%char) as [Hm Hp]
    by (split; intros ->; apply Hh; reflexivity).
  assert (∀ (X : Type) (a b k : X),
    match c with "-"%char => a | "+"%char => b | _ => k end = k) as Hc.
  { intros X a b k.
    destruct c as [[] [] [] [] [] [] [] []]; try reflexivity; congruence. }
  rewrite Hc, Hu. reflexivity.
Qed.

Lemma int_of_str_neg (d : uint) :
  d ≠ Nil →
  int_of_str (String "-" (NilEmpty.string_of_uint d)) = Return (Z.of_int (Neg d)).
Proof.
  intros Hd. unfold int_of_str.
  assert (no_space (String "-" (NilEmpty.string_of_uint d)) = true) as Hs
    by (unfold no_space; simpl; apply string_of_uint_no_space).
  rewrite (strip_no_space _ Hs).
  rewrite (uint_of_digits_string_of_uint d false (or_introl Hd)). reflexivity.
Qed.

Lemma string_of_uint_nonnil (d : uint) :
  d ≠ Nil → NilZero.string_of_uint d = NilEmpty.string_of_uint d.
Proof. destruct d; [congruence | reflexivity ..]. Qed.

Lemma int_of_str_str_of_int (n : Z) : int_of_str (str_of_int n) = Return n.
Proof.
  unfold str_of_int. rewrite <- (DecimalZ.of_to n) at 2.
  destruct n as [|p|p]; simpl Z.to_int.
  - reflexivity.
  - pose proof (DecimalPos.Unsigned.to_uint_nonnil p) as Hp.
    unfold NilZero.string_of_int. rewrite string_of_uint_nonnil by exact Hp.
    apply int_of_str_uint, Hp.
  - pose proof (DecimalPos.Unsigned.to_uint_nonnil p) as Hp.
    unfold NilZero.string_of_int. rewrite string_of_uint_nonnil by exact Hp.
    apply int_of_str_neg, Hp.
Qed.

(** ** Decoding what the encoder builds *)

Lemma _to_value_int (s : string) :
  _to_value (set_text (childless "int" None) s) = n ← int_of_str s; Return (PyInt n).
Proof. reflexivity. Qed.

Lemma _to_value_string (s : string) :
  _to_value (set_text (childless "string" None) s) = Return (PyStr s).
Proof. destruct s; reflexivity. Qed.

Lemma _to_value_list (attrs : gmap string string) (cs : list Element) :
  _to_value (new_Element "list" attrs cs)
  = vs ← mapM _to_value cs; Return (PyList vs).
Proof. reflexivity. Qed.

Lemma _to_value_pair (attrs : gmap string string) (cs : list Element) :
  _to_value (new_Element "pair" attrs cs)
  = vs ← mapM _to_value cs; Return (PyTuple vs).
Proof. reflexivity. Qed.

Lemma _to_value_some (c : Element) (cs : list Element) :
  _to_value (new_Element "option" (attribs_of (Some "some")) (c :: cs))
  = v ← _to_value c; Return (Option v).
Proof. reflexivity. Qed.

Lemma _to_value_in_l (c : Element) (cs : list Element) :
  _to_value (new_Element "union" (attribs_of (Some "in_l")) (c :: cs))
  = v ← _to_value c; Return (Inl v).
Proof. reflexivity. Qed.

Lemma _to_value_in_r (c : Element) (cs : list Element) :
  _to_value (new_Element "union" (attribs_of (Some "in_r")) (c :: cs))
  = v ← _to_value c; Return (Inr v).
Proof. reflexivity. Qed.

Lemma _to_value_state_id (s : string) :
  _to_value (childless "state_id" (Some s)) = n ← int_of_str s; Return (StateId n).
Proof.
  unfold childless, attribs_of, new_Element.
  change (_to_value (mkElement "state_id" {["val" := s]} None None []))
    with (n ← int_ (({["val" := s]} : gmap string string) !! "val");
          Return (StateId n)).
  rewrite lookup_singleton_eq. reflexivity.
Qed.

(** A single child: the payload is neither [None] nor a list. *)
Lemma _build_xml_single (tag : string) (val : option string) (v : value)
    (c : Element) :
  v ≠ PyNone → (∀ l, v ≠ PyList l) → _from_value v = Return c →
  _build_xml _from_value tag val v = Return (new_Element tag (attribs_of val) [c]).
Proof.
  intros Hn Hl Hc. unfold _build_xml.
  destruct v; try congruence; rewrite Hc; reflexivity.
Qed.

Lemma marshallable_payload (C : value -> value) (v : value) :
  (C = Option ∧ v ≠ PyNone) ∨ C = Inl ∨ C = Inr →
  marshallable (C v) = true →
  v ≠ PyNone ∧ (∀ l, v ≠ PyList l) ∧ marshallable v = true.
Proof.
  intros HC Hm.
  assert (match v with PyNone | PyList _ => false | _ => marshallable v end = true)
    as Hp.
  { destruct HC as [[-> Hv] | [-> | ->]]; [destruct v; [congruence|..] |..];
      exact Hm. }
  destruct v; try discriminate Hp; repeat split; try congruence; exact Hp.
Qed.

(** ** Round trip through the tree codec *)

Lemma marshal_roundtrip (v : value) :
  marshallable v = true → _from_value v ≫= _to_value = Return v.
Proof.
  induction v as [| b | n | s | l IH | l IH | v IH | v IH | v IH
                 | | | | | | n | | |] using value_ind;
    intros Hm; try discriminate Hm.
  - destruct b; reflexivity.
  - change (_from_value (PyInt n) ≫= _to_value)
      with (_to_value (set_text (childless "int" None) (str_of_int n))).
    rewrite _to_value_int, int_of_str_str_of_int. reflexivity.
  - apply _to_value_string.
  - assert (forallb marshallable l = true) as Hall by exact Hm.
    assert (Forall (fun x => _from_value x ≫= _to_value = Return x) l) as Hrt.
    { clear -IH Hall. induction IH as [|x l Hx _ IHl]; [constructor|].
      simpl in Hall. apply andb_true_iff in Hall as [Hx' Hl].
      constructor; auto. }
    apply mapM_roundtrip in Hrt as (ys & Hf & Hg).
    change (_from_value (PyList l))
      with (children ← mapM _from_value l; Return (new_Element "list" ∅ children)).
    rewrite Hf.
    change (_to_value (new_Element "list" ∅ ys) = Return (PyList l)).
    rewrite _to_value_list, Hg. reflexivity.
  - destruct l as [|a [|b [|c l]]]; try discriminate Hm; [reflexivity|].
    apply andb_true_iff in Hm as [Ha Hb].
    apply Forall_cons in IH as [IHa IH]. apply Forall_cons in IH as [IHb _].
    apply bind_inv in IHa as (ca & Hca & Hda); [|exact Ha].
    apply bind_inv in IHb as (cb & Hcb & Hdb); [|exact Hb].
    change (_from_value (PyTuple [a; b]))
      with (c0 ← _from_value a; c1 ← _from_value b;
            Return (new_Element "pair" ∅ [c0; c1])).
    rewrite Hca, Hcb.
    change (_to_value (new_Element "pair" ∅ [ca; cb]) = Return (PyTuple [a; b])).
    rewrite _to_value_pair, !mapM_cons, Hda, Hdb. reflexivity.
  - assert (v = PyNone ∨ v ≠ PyNone) as [-> | Hv]
      by (destruct v; (left; reflexivity) || (right; discriminate));
      [reflexivity|].
    destruct (marshallable_payload Option v) as (Hn & Hl & Hmv); auto.
    apply bind_inv in IH as (c & Hc & Hd); [|exact Hmv].
    replace (_from_value (Option v))
      with (_build_xml _from_value "option" (Some "some") v)
      by (destruct v; congruence || reflexivity).
    rewrite (_build_xml_single _ _ _ _ Hn Hl Hc), bind_Return, _to_value_some, Hd.
    reflexivity.
  - destruct (marshallable_payload Inl v) as (Hn & Hl & Hmv); auto.
    apply bind_inv in IH as (c & Hc & Hd); [|exact Hmv].
    change (_from_value (Inl v))
      with (_build_xml _from_value "union" (Some "in_l") v).
    rewrite (_build_xml_single _ _ _ _ Hn Hl Hc), bind_Return, _to_value_in_l, Hd.
    reflexivity.
  - destruct (marshallable_payload Inr v) as (Hn & Hl & Hmv); auto.
    apply bind_inv in IH as (c & Hc & Hd); [|exact Hmv].
    change (_from_value (Inr v))
      with (_build_xml _from_value "union" (Some "in_r") v).
    rewrite (_build_xml_single _ _ _ _ Hn Hl Hc), bind_Return, _to_value_in_r, Hd.
    reflexivity.
  - change (_from_value (StateId n) ≫= _to_value)
      with (_to_value (childless "state_id" (Some (str_of_int n)))).
    rewrite _to_value_state_id, int_of_str_str_of_int. reflexivity.
Qed.

(** C1 (amended).  For every value built from unit, booleans, integers,
    strings, lists, two-element pairs, [Option(None)], and [Option], [Inl]
    and [Inr] of a payload that is neither [None] nor a list, and [StateId]
    of an integer, encoding succeeds and decoding the tree gives the value
    back: [_to_value(_from_value(v)) == v]. *)
Theorem roundtrip_marshallable (v : value) :
  marshallable v = true →
  ∃ xml, _from_value v = Return xml ∧ _to_value xml = Return v.
Proof.
  intros Hm. apply marshal_roundtrip in Hm.
  apply bind_inv in Hm as (xml & Hx & Hd). eauto.
Qed.

Lemma roundtrip_marshallable_witness :
  let v := PyList [PyTuple [PyStr "Lemma foo."; PyInt (-1)];
                   Option (StateId 3); Option PyNone; Inl (PyBool true);
                   Inr (PyTuple []); PyList []] in
  marshallable v = true ∧
  ∃ xml, _from_value v = Return xml ∧ _to_value xml = Return v.
Proof.
  split; [reflexivity | apply roundtrip_marshallable; reflexivity].
Defined.

(** C1 as stated fails twice.  An [Option] holding a list is within the
    shapes the encoder handles, yet its elements become the children of
    the [option] node and only the first comes back; and a [Goal], a
    member of the closed set, is refused by the encoder. *)
Lemma roundtrip_closed_set_fails :
  (_from_value (Option (PyList [PyInt 1; PyInt 2])) ≫= _to_value
     = Return (Option (PyInt 1)) ∧
   Option (PyInt 1) ≠ Option (PyList [PyInt 1; PyInt 2])) ∧
  _from_value (Goal (PyStr "1") (PyList []) (PyStr "True"))
    = Raise (ValueError "Expected , but got <class 'xmlInterface.Goal'>").
Proof.
  split; [split; [vm_compute; reflexivity | discriminate] | reflexivity].
Qed.

(** ** The text content of an element *)

Lemma append_nil_r (s : string) : s ++ "" = s.
Proof.
  induction s as [|c s IH]; [reflexivity|].
  change (String c (s ++ "") = String c s). f_equal. exact IH.
Qed.

Lemma append_assoc (a b c : string) : (a ++ b) ++ c = a ++ b ++ c.
Proof.
  induction a as [|x a IH]; [reflexivity|].
  change (String x ((a ++ b) ++ c) = String x (a ++ b ++ c)). f_equal. exact IH.
Qed.

Lemma concat_str_cons (s : string) (l : list string) :
  concat_str (s :: l) = s ++ concat_str l.
Proof.
  unfold concat_str. destruct l; [|reflexivity].
  symmetry. apply append_nil_r.
Qed.

Lemma concat_str_app (l1 l2 : list string) :
  concat_str (l1 ++ l2) = concat_str l1 ++ concat_str l2.
Proof.
  induction l1 as [|s l1 IH]; [reflexivity|].
  change ((s :: l1) ++ l2)%list with (s :: (l1 ++ l2))%list.
  rewrite !concat_str_cons, IH, append_assoc. reflexivity.
Qed.

Lemma concat_str_yield_text (t : option string) :
  concat_str (yield_text t) = default "" t.
Proof. destruct t as [[|c s]|]; reflexivity. Qed.

(** [''.join(xml.itertext())] is the text of the element followed, for
    each child in order, by the text content of the child and its tail. *)
Lemma join_itertext_eq (xml : Element) :
  join_itertext xml
  = default "" (text xml)
    ++ concat_str (map (fun e => join_itertext e ++ default "" (tail e))
                       (children xml)).
Proof.
  destruct xml as [tg attrs tx tl cs]. unfold join_itertext.
  change (sjoin "") with concat_str. cbn [itertext text children].
  rewrite concat_str_app, concat_str_yield_text. f_equal.
  induction cs as [|c cs IH]; [reflexivity|].
  cbn [flat_map map]. rewrite concat_str_app, concat_str_cons, IH.
  rewrite concat_str_app, concat_str_yield_text. reflexivity.
Qed.

(** ** [_to_response] *)

Lemma decide_tag_value (xml : Element) (A : Type) (a b : A) :
  tag xml = "value" → (if decide (tag xml = "value") then a else b) = a.
Proof. intros H. destruct (decide (tag xml = "value")); [reflexivity | contradiction]. Qed.

(** C3.  For a node tagged [value]: with [val="good"] the result is [Ok]
    of the decode of the first child with the empty message; with
    [val="fail"] it is [Err] of the concatenated text of the node and of the
    range [(int(loc_s), int(loc_e))], an absent attribute counting as -1
    (so [(-1, -1)] without both); any other [val], or none, raises an
    error. *)
Theorem _to_response_value (xml : Element) :
  tag xml = "value" →
  (attrib xml !! "val" = Some "good" →
   ∀ c cs v, children xml = c :: cs → _to_value c = Return v →
     _to_response xml = Return (Ok v "")) ∧
  (attrib xml !! "val" = Some "fail" →
   ∀ s e : Z,
     match attrib xml !! "loc_s" with
     | Some t => int_of_str t = Return s
     | None => s = -1
     end →
     match attrib xml !! "loc_e" with
     | Some t => int_of_str t = Return e
     | None => e = -1
     end →
     _to_response xml = Return (Err (join_itertext xml) (s, e) false)) ∧
  (attrib xml !! "val" = Some "fail" →
   attrib xml !! "loc_s" = None → attrib xml !! "loc_e" = None →
   _to_response xml = Return (Err (join_itertext xml) (-1, -1) false)) ∧
  (attrib xml !! "val" ≠ Some "good" → attrib xml !! "val" ≠ Some "fail" →
   _to_response xml
   = Raise (ValueError ("Expected good or fail, but got "
                        ++ str_of_opt (attrib xml !! "val")))).
Proof.
  intros Htag. unfold _to_response. rewrite (decide_tag_value _ _ _ _ Htag).
  split; [|split; [|split]].
  - intros Hval c cs v Hc Hv. rewrite Hval, Hc, Hv. reflexivity.
  - intros Hval s e Hs He. rewrite Hval. simpl.
    destruct (attrib xml !! "loc_s") as [ts|], (attrib xml !! "loc_e") as [te|];
      simpl; rewrite ?Hs, ?He; subst; reflexivity.
  - intros Hval Hs He. rewrite Hval, Hs, He. reflexivity.
  - intros Hg Hf.
    destruct (decide (attrib xml !! "val" = Some "good")); [contradiction|].
    destruct (decide (attrib xml !! "val" = Some "fail")); [contradiction|].
    reflexivity.
Qed.

Lemma _to_response_value_witness :
  _to_response (mkElement "value" {[ "val" := "good" ]} None None
                  [mkElement "unit" ∅ None None []])
    = Return (Ok (PyTuple []) "") ∧
  _to_response (mkElement "value" {[ "val" := "fail" ]} (Some "Error: ") None
                  [mkElement "b" ∅ (Some "x") (Some " is unbound") []])
    = Return (Err "Error: x is unbound" (-1, -1) false) ∧
  _to_response (mkElement "value" (<[ "loc_s" := "3" ]> {[ "val" := "fail" ]})
                  (Some "bad") None [])
    = Return (Err "bad" (3, -1) false) ∧
  _to_response (mkElement "value" {[ "val" := "maybe" ]} None None [])
    = Raise (ValueError "Expected good or fail, but got maybe").
Proof.
  split; [|split; [|split]];
    lazymatch goal with
    | |- _to_response ?x = _ =>
        destruct (_to_response_value x eq_refl) as (Hgood & Hfail & Hnoloc & Hother)
    end.
  - eapply Hgood; reflexivity.
  - apply Hnoloc; reflexivity.
  - apply Hfail; reflexivity.
  - apply Hother; vm_compute; discriminate.
Defined.

(** ** Pairs: no arity check on decoding *)

Lemma _to_value_tag_pair (xml : Element) :
  tag xml = "pair" →
  _to_value xml = vs ← mapM _to_value (children xml); Return (PyTuple vs).
Proof. destruct xml as [tg attrs tx tl cs]. simpl. intros ->. reflexivity. Qed.

Lemma mapM_Forall2 {A B : Type} (f : A -> py B) (l : list A) (ys : list B) :
  mapM f l = Return ys → Forall2 (fun x y => f x = Return y) l ys.
Proof.
  revert ys; induction l as [|x l IH]; intros ys H.
  - injection H as <-. constructor.
  - rewrite mapM_cons in H.
    apply bind_inv in H as (y & Hy & H). apply bind_inv in H as (ys' & Hl & H).
    injection H as <-. constructor; auto.
Qed.

Lemma pairs_binary_node (tg : string) (attrs : gmap string string)
    (tx tl : option string) (cs : list Element) :
  (tg = "pair" → length cs = 2%nat) → Forall (fun c => pairs_binary c = true) cs →
  pairs_binary (mkElement tg attrs tx tl cs) = true.
Proof.
  intros Hp Hcs. simpl. apply andb_true_iff. split.
  - destruct (decide (tg = "pair")) as [H|]; [|reflexivity].
    rewrite (Hp H). reflexivity.
  - apply forallb_forall. intros c Hc.
    rewrite List.Forall_forall in Hcs. auto.
Qed.

Lemma encoded_children_binary (l : list value) (cs : list Element) :
  Forall (fun v => ∀ xml, _from_value v = Return xml → pairs_binary xml = true) l →
  mapM _from_value l = Return cs → Forall (fun c => pairs_binary c = true) cs.
Proof.
  intros IH H. apply mapM_Forall2 in H.
  induction H as [|v c l cs Hvc _ IHl]; constructor;
    apply Forall_cons in IH as [Hv Hl]; auto.
Qed.

Lemma _build_xml_binary (tg : string) (val : option string) (v : value)
    (xml : Element) :
  tg ≠ "pair" →
  (∀ x, _from_value v = Return x → pairs_binary x = true) →
  (∀ l, v = PyList l →
     Forall (fun v => ∀ x, _from_value v = Return x → pairs_binary x = true) l) →
  _build_xml _from_value tg val v = Return xml → pairs_binary xml = true.
Proof.
  intros Htg IH IHl H. unfold _build_xml in H.
  apply bind_inv in H as (cs & Hcs & H). injection H as <-.
  apply pairs_binary_node; [congruence|].
  destruct v;
    try (apply bind_inv in Hcs as (c & Hc & Hcs); injection Hcs as <-;
         repeat constructor; apply IH, Hc).
  - injection Hcs as <-. constructor.
  - eapply encoded_children_binary; [apply IHl; reflexivity | exact Hcs].
Qed.

Lemma _from_value_pairs_binary_strong (v : value) :
  emits_binary v ∧ (∀ l, v = PyList l → Forall emits_binary l).
Proof.
  induction v as [| b | n | s | l IH | l IH | v IH | v IH | v IH
                 | | | | | | n | | |] using value_ind;
    (split; [intros xml H | try discriminate]);
    try discriminate H; try (injection H as <-; reflexivity).
  - change (_from_value (PyList l))
      with (children ← mapM _from_value l; Return (new_Element "list" ∅ children))
      in H.
    apply bind_inv in H as (cs & Hcs & H). injection H as <-.
    apply pairs_binary_node; [discriminate|].
    eapply encoded_children_binary; [|exact Hcs].
    eapply List.Forall_impl; [|exact IH]. intros a Ha. apply Ha.
  - intros l' [= <-]. eapply List.Forall_impl; [|exact IH]. intros a Ha. apply Ha.
  - destruct l as [|a [|b l]]; try discriminate H.
    + injection H as <-. reflexivity.
    + change (_from_value (PyTuple (a :: b :: l)))
        with (c0 ← _from_value a; c1 ← _from_value b;
              Return (new_Element "pair" ∅ [c0; c1])) in H.
      apply bind_inv in H as (ca & Hca & H). apply bind_inv in H as (cb & Hcb & H).
      injection H as <-.
      apply Forall_cons in IH as [[IHa _] IH]. apply Forall_cons in IH as [[IHb _] _].
      apply pairs_binary_node; [reflexivity|]. repeat constructor; auto.
  - destruct IH as [IH IHl].
    assert (v = PyNone ∨ v ≠ PyNone) as [-> | Hv]
      by (destruct v; (left; reflexivity) || (right; discriminate)).
    + injection H as <-. reflexivity.
    + replace (_from_value (Option v))
        with (_build_xml _from_value "option" (Some "some") v) in H
        by (destruct v; congruence || reflexivity).
      eapply _build_xml_binary; [| exact IH | exact IHl | exact H]. discriminate.
  - destruct IH as [IH IHl].
    eapply _build_xml_binary; [| exact IH | exact IHl | exact H]. discriminate.
  - destruct IH as [IH IHl].
    eapply _build_xml_binary; [| exact IH | exact IHl | exact H]. discriminate.
Qed.

(** C10.  Decoding a [pair] node checks no arity: whatever the number of
    children, the result is the tuple of the decoded children, one
    component per child; whereas every [pair] node of a tree built by the
    encoder has exactly two children. *)
Theorem pair_decoding_any_arity :
  (∀ (xml : Element) (vs : list value),
     tag xml = "pair" → mapM _to_value (children xml) = Return vs →
     _to_value xml = Return (PyTuple vs) ∧ length vs = length (children xml)) ∧
  (∀ (v : value) (xml : Element),
     _from_value v = Return xml → pairs_binary xml = true).
Proof.
  split.
  - intros xml vs Htag Hvs. split.
    + rewrite (_to_value_tag_pair _ Htag), Hvs. reflexivity.
    + eapply mapM_length, Hvs.
  - intros v xml. apply _from_value_pairs_binary_strong.
Qed.

Lemma pair_decoding_any_arity_witness :
  let unit_ := mkElement "unit" ∅ None None [] in
  let num n := mkElement "int" ∅ (Some n) None [] in
  _to_value (mkElement "pair" ∅ None None []) = Return (PyTuple []) ∧
  _to_value (mkElement "pair" ∅ None None [num "7"]) = Return (PyTuple [PyInt 7]) ∧
  _to_value (mkElement "pair" ∅ None None [num "1"; unit_; num "3"])
    = Return (PyTuple [PyInt 1; PyTuple []; PyInt 3]) ∧
  (∃ xml, _from_value (PyTuple [PyInt 1; PyInt 2; PyInt 3]) = Return xml ∧
          pairs_binary xml = true).
Proof.
  destruct pair_decoding_any_arity as [Hdec Henc].
  split; [|split; [|split]].
  - apply (Hdec (mkElement "pair" ∅ None None []) []); reflexivity.
  - eapply Hdec; reflexivity.
  - eapply Hdec; reflexivity.
  - eexists. split; [reflexivity|].
    eapply (Henc (PyTuple [PyInt 1; PyInt 2; PyInt 3])). reflexivity.
Defined.

(** ** Values and tags outside the vocabulary *)

Lemma _to_value_unknown_tag (xml : Element) :
  ¬ In (tag xml) decoder_tags →
  _to_value xml = Raise (ValueError ("Expected , but got " ++ tag xml)).
Proof.
  destruct xml as [tg attrs tx tl cs]. simpl. intros H.
  repeat lazymatch goal with
  | |- context [decide (?a = ?b ∨ ?c = ?d)] =>
      destruct (decide (a = b ∨ c = d)) as [[->| ->]|_]; [exfalso; tauto ..|]
  | |- context [decide (?a = ?b)] =>
      destruct (decide (a = b)) as [->|_]; [exfalso; tauto|]
  end.
  reflexivity.
Qed.

(** C8 (amended).  Encoding a value whose runtime type the encoder does
    not dispatch on (the record namedtuples, [None], any other class)
    raises an error naming that type; decoding a node whose tag the decoder
    does not know raises an error naming the tag; a plain tuple of more
    than two components is encoded as the pair of its first two. *)
Theorem unsupported_raises :
  (∀ v : value, dispatched v = false →
     _from_value v = Raise (ValueError ("Expected , but got " ++ type_str v))) ∧
  (∀ xml : Element, ¬ In (tag xml) decoder_tags →
     _to_value xml = Raise (ValueError ("Expected , but got " ++ tag xml))) ∧
  (∀ (a b : value) (l : list value),
     _from_value (PyTuple (a :: b :: l)) = _from_value (PyTuple [a; b])).
Proof.
  split; [|split].
  - intros v Hv. destruct v; try discriminate Hv; reflexivity.
  - apply _to_value_unknown_tag.
  - reflexivity.
Qed.

Lemma unsupported_raises_witness :
  _from_value (Status (PyList []) (Option PyNone) (PyList []) (PyInt 0))
    = Raise (ValueError "Expected , but got <class 'xmlInterface.Status'>") ∧
  _from_value PyNone = Raise (ValueError "Expected , but got <class 'NoneType'>") ∧
  _to_value (mkElement "feedback" ∅ None None [])
    = Raise (ValueError "Expected , but got feedback").
Proof.
  destruct unsupported_raises as (Henc & Hdec & _).
  split; [|split].
  - apply (Henc (Status _ _ _ _)). reflexivity.
  - apply (Henc PyNone). reflexivity.
  - apply (Hdec (mkElement "feedback" ∅ None None [])).
    simpl. intros H. repeat destruct H as [H|H]; try discriminate H. exact H.
Defined.

(** C8 as stated fails on a triple: a shape outside the encodable set,
    which the encoder turns into a [pair] node of the first two components
    without any error. *)
Lemma triple_silently_truncated :
  marshallable (PyTuple [PyInt 1; PyInt 2; PyInt 3]) = false ∧
  _from_value (PyTuple [PyInt 1; PyInt 2; PyInt 3])
    = Return (mkElement "pair" ∅ None None
                [mkElement "int" ∅ (Some "1") None [];
                 mkElement "int" ∅ (Some "2") None []]) ∧
  _from_value (PyTuple [PyInt 1; PyInt 2; PyInt 3]) ≫= _to_value
    = Return (PyTuple [PyInt 1; PyInt 2]).
Proof. split; [|split]; reflexivity. Qed.

(** ** [_unescape] *)

Lemma startswith_app (p b : string) : startswith p (p ++ b) = true.
Proof.
  induction p as [|c p IH]; simpl; [reflexivity|].
  rewrite Ascii.eqb_refl. exact IH.
Qed.

Lemma occurs_contains (p s : string) : occurs p s → contains p s = true.
Proof.
  intros (a & b & ->). induction a as [|c a IH].
  - simpl String.append. destruct (p ++ b) eqn:E; simpl;
      rewrite <- E, startswith_app; reflexivity.
  - simpl. rewrite IH. apply orb_true_r.
Qed.

Lemma occurs_tail (p : string) (c : ascii) (s : string) :
  occurs p s → occurs p (String c s).
Proof. intros (a & b & ->). exists (String c a), b. reflexivity. Qed.

Lemma startswith_occurs (p s : string) : startswith p s = true → occurs p s.
Proof.
  intros H. exists "". simpl. revert s H.
  induction p as [|a p IH]; intros s H.
  - exists s. reflexivity.
  - destruct s as [|b s]; [discriminate|]. simpl in H.
    destruct (Ascii.eqb a b) eqn:E; [|discriminate].
    apply Ascii.eqb_eq in E as ->.
    destruct (IH s H) as (t & ->). exists t. reflexivity.
Qed.

Lemma replace_from_absent (old new s : string) :
  ¬ occurs old s → replace_from old new 0 s = s.
Proof.
  induction s as [|c s IH]; intros H; [reflexivity|].
  simpl replace_from.
  destruct (startswith old (String c s)) eqn:E.
  - exfalso. apply H, startswith_occurs, E.
  - f_equal. apply IH. intros Ho. apply H, occurs_tail, Ho.
Qed.

Lemma replace_absent (old new s : string) :
  old ≠ "" → ¬ occurs old s → replace old new s = s.
Proof.
  intros Hne H. unfold replace. destruct old; [congruence|].
  apply replace_from_absent, H.
Qed.

(** C9.  A byte string in which none of the four escape markers occurs is
    left unchanged by [_unescape]. *)
Theorem _unescape_no_marker (cmd : string) :
  ¬ occurs "&nbsp;" cmd → ¬ occurs "&apos;" cmd →
  ¬ occurs "&#40;" cmd → ¬ occurs "&#41;" cmd →
  _unescape cmd = cmd.
Proof.
  intros H1 H2 H3 H4. unfold _unescape, charmap. cbv beta iota delta [fold_left].
  rewrite (replace_absent "&nbsp;" _ cmd) by (discriminate || assumption).
  rewrite (replace_absent "&apos;" _ cmd) by (discriminate || assumption).
  rewrite (replace_absent "&#40;" _ cmd) by (discriminate || assumption).
  apply replace_absent; [discriminate | assumption].
Qed.

Lemma _unescape_no_marker_witness :
  _unescape "<value val='good'><string>a &amp; b</string></value>"
  = "<value val='good'><string>a &amp; b</string></value>".
Proof.
  apply _unescape_no_marker;
    intros H%occurs_contains; vm_compute in H; discriminate H.
Defined.

(** ** Version strings *)

Lemma of_uint_acc_from (d : uint) (acc : positive) :
  Z.pos (Pos.of_uint_acc d acc) = uint_from (Z.pos acc) d.
Proof.
  revert acc; induction d; intros acc; simpl; [reflexivity | rewrite IHd; f_equal; lia ..].
Qed.

Lemma of_uint_from (d : uint) : Z.of_uint d = uint_from 0 d.
Proof.
  unfold Z.of_uint. induction d; simpl; try reflexivity; try exact IHd;
    apply of_uint_acc_from.
Qed.

Lemma is_digit_inv (c : ascii) :
  is_digit c = true →
  ∃ k : uint → uint, digit_of c = Some k ∧ is_space c = false ∧
    c ≠ "-"%char ∧ c ≠ "+"%char ∧
    ∀ acc d, uint_from acc (k d)
             = uint_from (10 * acc + (Z.of_nat (nat_of_ascii c) - 48)) d.
Proof.
  destruct c as [[] [] [] [] [] [] [] []]; intros H; try discriminate H;
    eexists; (split; [reflexivity|]); repeat split; discriminate.
Qed.

Lemma uint_of_digits_all_digits (s : string) (b : bool) :
  all_digits s = true → s ≠ "" ∨ b = true →
  ∃ d, uint_of_digits b s = Some d ∧ ∀ acc, uint_from acc d = decimal_from acc s.
Proof.
  revert b; induction s as [|c s IH]; intros b Hs Hb.
  - destruct Hb as [Hb | ->]; [congruence|]. exists Nil. split; reflexivity.
  - unfold all_digits in Hs. simpl in Hs. apply andb_true_iff in Hs as [Hc Hs].
    destruct (is_digit_inv c Hc) as (k & Hk & _ & _ & _ & Hv).
    destruct (IH true Hs (or_intror eq_refl)) as (d & Hd & Hval).
    exists (k d). split.
    + simpl. rewrite Hk, Hd. reflexivity.
    + intros acc. rewrite Hv, Hval. reflexivity.
Qed.

Lemma all_digits_no_space (s : string) : all_digits s = true → no_space s = true.
Proof.
  unfold all_digits, no_space. induction s as [|c s IH]; simpl; [reflexivity|].
  intros [Hc Hs]%andb_true_iff.
  destruct (is_digit_inv c Hc) as (_ & _ & -> & _). simpl. auto.
Qed.

(** [int()] of a non-empty run of digits is its value in base ten. *)
Lemma int_of_str_digits (s : string) :
  all_digits s = true → s ≠ "" → int_of_str s = Return (decimal_value s).
Proof.
  intros Hs Hne. unfold int_of_str.
  rewrite (strip_no_space _ (all_digits_no_space _ Hs)).
  destruct (uint_of_digits_all_digits s false Hs (or_introl Hne)) as (d & Hd & Hv).
  destruct s as [|c s]; [congruence|].
  assert (is_digit c = true) as Hc
    by (unfold all_digits in Hs; simpl in Hs; apply andb_true_iff in Hs; tauto).
  destruct (is_digit_inv c Hc) as (_ & _ & _ & Hm & Hp & _).
  assert (∀ (X : Type) (x y k : X),
    match c with "-"%char => x | "+"%char => y | _ => k end = k) as Hsign.
  { intros X x y k.
    destruct c as [[] [] [] [] [] [] [] []]; try reflexivity; congruence. }
  rewrite Hsign, Hd. simpl. rewrite of_uint_from, Hv. reflexivity.
Qed.

Lemma span_fst_all (p : ascii → bool) (s : string) :
  forallb p (list_ascii_of_string (fst (span p s))) = true.
Proof.
  induction s as [|c s IH]; simpl; [reflexivity|].
  destruct (p c) eqn:E; [|reflexivity].
  destruct (span p s) as [a b]. simpl in *. rewrite E. exact IH.
Qed.

Lemma leading_int_digits (v : string) :
  leading_digits v ≠ "" → leading_int v = Return (decimal_value (leading_digits v)).
Proof.
  unfold leading_int, leading_digits. intros Hne.
  pose proof (int_of_str_digits _ (span_fst_all is_digit v) Hne) as H.
  destruct (fst (span is_digit v)); [congruence | exact H].
Qed.

Lemma leading_int_no_digit (v : string) :
  leading_digits v = "" → leading_int v = Raise AttributeError.
Proof. unfold leading_int, leading_digits. intros ->. reflexivity. Qed.

Lemma mapM_leading_int (comps : list string) :
  Forall (fun c => leading_digits c ≠ "") comps →
  mapM leading_int comps
  = Return (map (fun c => decimal_value (leading_digits c)) comps).
Proof.
  intros H. apply mapM_Return.
  eapply List.Forall_impl; [|exact H]. apply leading_int_digits.
Qed.

Lemma mapM_leading_int_fails (comps : list string) :
  Exists (fun c => leading_digits c = "") comps →
  mapM leading_int comps = Raise AttributeError.
Proof.
  induction 1 as [c l Hc | c l _ IH]; rewrite mapM_cons.
  - rewrite (leading_int_no_digit _ Hc). reflexivity.
  - rewrite IH. destruct (leading_digits c) eqn:E.
    + rewrite (leading_int_no_digit _ E). reflexivity.
    + rewrite leading_int_digits by (rewrite E; discriminate). reflexivity.
Qed.

(** C6 (amended).  The version string has its [pl] replaced by a dot and
    is split at the dots.  When every component starts with a digit, the
    tuple is made of the values of the leading digit runs of the
    components, in order, followed by as many zeros as are needed to
    reach three components: three components for a string of at most
    three, all of them for a longer one.  When some component does not
    start with a digit, an error is raised.  ["8.6pl1"] gives [(8, 6, 1)]
    and ["8.6"] gives [(8, 6, 0)]. *)
Theorem versions_normalize :
  (∀ version : string,
     let comps := split "." (replace "pl" "." version) in
     (Forall (fun c => leading_digits c ≠ "") comps →
      versions version
      = Return (map (fun c => decimal_value (leading_digits c)) comps
                ++ replicate (3 - length comps) 0)%list) ∧
     (Exists (fun c => leading_digits c = "") comps →
      versions version = Raise AttributeError)) ∧
  (∀ (version : string) (t : list Z),
     versions version = Return t →
     length t = Nat.max 3 (length (split "." (replace "pl" "." version)))) ∧
  versions "8.6pl1" = Return [8; 6; 1] ∧
  versions "8.6" = Return [8; 6; 0].
Proof.
  split; [|split; [|split; reflexivity]].
  - intros version comps. unfold versions. fold comps. split; intros H.
    + rewrite (mapM_leading_int _ H). simpl. rewrite length_map. reflexivity.
    + rewrite (mapM_leading_int_fails _ H). reflexivity.
  - intros version t H. unfold versions in H.
    apply bind_inv in H as (vs & Hvs & H). injection H as <-.
    apply mapM_length in Hvs.
    rewrite length_app, length_replicate, Hvs. lia.
Qed.

Lemma versions_normalize_witness :
  versions "8.6+beta1" = Return [8; 6; 0] ∧
  versions "8.6.x" = Raise AttributeError ∧
  (∃ t, versions "8.5pl3" = Return t ∧ length t = 3%nat).
Proof.
  destruct versions_normalize as (Hv & Hlen & _).
  split; [|split].
  - apply (Hv "8.6+beta1"). repeat constructor; discriminate.
  - apply (Hv "8.6.x"). do 2 apply Exists_cons_tl. apply Exists_cons_hd. reflexivity.
  - eexists. split; [reflexivity|]. apply (Hlen "8.5pl3"). reflexivity.
Defined.

(** C6 as stated fails: four components are neither padded nor cut, so
    the tuple is not a triple; and a component without a leading digit
    has no integer. *)
Lemma versions_not_a_triple :
  versions "8.6.1.2" = Return [8; 6; 1; 2] ∧
  length [8; 6; 1; 2] ≠ 3%nat ∧
  versions "8.x" = Raise AttributeError.
Proof. split; [|split]; [reflexivity | discriminate | reflexivity]. Qed.

(** ** The dispatcher *)

Lemma tuple_le_triple (x y z a b c : Z) :
  tuple_le [x; y; z] [a; b; c] = true ↔ triple_le (x, y, z) (a, b, c).
Proof.
  unfold triple_le, triple_lt. simpl.
  rewrite !orb_true_iff, !andb_true_iff, !orb_true_iff, !andb_true_iff,
    !orb_true_iff, !andb_true_iff, !Z.ltb_lt, !Z.eqb_eq.
  split.
  - intros H.
    assert (x < a ∨ (x = a ∧ (y < b ∨ (y = b ∧ (z < c ∨ z = c))))) as H' by tauto.
    destruct H' as [H'|(-> & [H'|(-> & [H'| ->])])]; auto 10.
  - intros [H | H]; [tauto|]. injection H as -> -> ->. tauto.
Qed.

Lemma tuple_lt_triple (x y z a b c : Z) :
  tuple_lt [x; y; z] [a; b; c] = true ↔ triple_lt (x, y, z) (a, b, c).
Proof.
  unfold triple_lt. simpl.
  rewrite !orb_true_iff, !andb_true_iff, !orb_true_iff, !andb_true_iff,
    !orb_true_iff, !andb_true_iff, !Z.ltb_lt, !Z.eqb_eq.
  split; [|tauto].
  intros H.
  assert (x < a ∨ (x = a ∧ (y < b ∨ (y = b ∧ z < c)))) as H'
    by (intuition discriminate).
  exact H'.
Qed.

Lemma decimal_from_nonneg (s : string) (acc : Z) :
  all_digits s = true → 0 ≤ acc → 0 ≤ decimal_from acc s.
Proof.
  revert acc; induction s as [|c s IH]; intros acc Hs Hacc; [exact Hacc|].
  unfold all_digits in Hs. simpl in Hs. apply andb_true_iff in Hs as [Hc Hs].
  simpl. apply IH; [exact Hs|].
  unfold is_digit in Hc. apply andb_true_iff in Hc as [Hlo _].
  apply Nat.leb_le in Hlo. lia.
Qed.

Lemma leading_int_nonneg (v : string) (n : Z) :
  leading_int v = Return n → 0 ≤ n.
Proof.
  intros H. destruct (leading_digits v) eqn:E.
  - rewrite (leading_int_no_digit _ E) in H. discriminate H.
  - rewrite leading_int_digits in H by (rewrite E; discriminate).
    injection H as <-. apply decimal_from_nonneg; [|lia].
    apply span_fst_all.
Qed.

(** The tuple of a version string has at least three components, none
    of them negative. *)
Lemma versions_shape (version : string) (t : list Z) :
  versions version = Return t →
  ∃ a b c rest, t = a :: b :: c :: rest ∧ 0 ≤ a ∧ 0 ≤ b ∧ 0 ≤ c.
Proof.
  unfold versions. intros H. apply bind_inv in H as (vs & Hvs & H).
  injection H as <-. apply mapM_Forall2 in Hvs.
  assert (Forall (fun n => 0 ≤ n) vs) as Hpos.
  { clear -Hvs. induction Hvs as [|v n l vs Hn _ IH]; constructor; [|exact IH].
    eapply leading_int_nonneg, Hn. }
  destruct vs as [|a [|b [|c rest]]]; simpl;
    repeat (apply Forall_cons in Hpos as [? Hpos]);
    do 4 eexists; (split; [reflexivity|]); repeat split; (assumption || lia).
Qed.

(** Whatever the number of components, a version is accepted exactly when
    its first two are 8 and 6. *)
Lemma XmlInterface_accepts (version : string) (t : list Z) :
  versions version = Return t →
  XmlInterface version = Return XmlInterface86 ↔ ∃ rest, t = 8 :: 6 :: rest.
Proof.
  intros Hv. destruct (versions_shape _ _ Hv) as (a & b & c & rest & -> & Ha & Hb & Hc).
  unfold XmlInterface. rewrite Hv, bind_Return.
  assert (tuple_le [8; 6; 0] (a :: b :: c :: rest)
          && tuple_lt (a :: b :: c :: rest) [8; 7; 0] = true ↔ a = 8 ∧ b = 6) as Hr.
  { cbn [tuple_le tuple_lt].
    assert (tuple_lt rest [] = false) as -> by (destruct rest; reflexivity).
    repeat rewrite ?orb_true_iff, ?andb_true_iff, ?Z.ltb_lt, ?Z.eqb_eq.
    intuition (discriminate || lia). }
  destruct (tuple_le [8; 6; 0] (a :: b :: c :: rest)
            && tuple_lt (a :: b :: c :: rest) [8; 7; 0]).
  - split; [intros _ | reflexivity].
    destruct (proj1 Hr eq_refl) as [-> ->]. eauto.
  - split; [discriminate|]. intros (r & [= -> -> _]).
    destruct Hr as [_ Hr]. discriminate Hr. split; reflexivity.
Qed.

(** C5.  When the version string normalizes to a triple, [XmlInterface]
    returns the 8.6 implementation exactly when the triple lies in the
    half-open range from [(8, 6, 0)] to [(8, 7, 0)], and for a triple
    outside that range it raises an error naming the version string. *)
Theorem XmlInterface_range (version : string) (a b c : Z) :
  versions version = Return [a; b; c] →
  (XmlInterface version = Return XmlInterface86 ↔
   triple_le (8, 6, 0) (a, b, c) ∧ triple_lt (a, b, c) (8, 7, 0)) ∧
  (¬ (triple_le (8, 6, 0) (a, b, c) ∧ triple_lt (a, b, c) (8, 7, 0)) →
   XmlInterface version = Raise (ValueError ("Invalid version: " ++ version))).
Proof.
  intros Hv. unfold XmlInterface. rewrite Hv, bind_Return.
  rewrite <- tuple_le_triple, <- tuple_lt_triple, <- andb_true_iff.
  destruct (tuple_le [8; 6; 0] [a; b; c] && tuple_lt [a; b; c] [8; 7; 0]).
  - split; [tauto|]. intros H. exfalso. auto.
  - split; [|reflexivity]. split; discriminate.
Qed.

Lemma XmlInterface_range_witness :
  XmlInterface "8.6.1" = Return XmlInterface86 ∧
  XmlInterface "8.8.0" = Raise (ValueError "Invalid version: 8.8.0") ∧
  XmlInterface "9.0.0" = Raise (ValueError "Invalid version: 9.0.0").
Proof.
  split; [|split].
  - apply (XmlInterface_range "8.6.1" 8 6 1 eq_refl).
    unfold triple_le, triple_lt. split; [left|]; lia.
  - apply (XmlInterface_range "8.8.0" 8 8 0 eq_refl).
    unfold triple_le, triple_lt. intros [_ H]. lia.
  - apply (XmlInterface_range "9.0.0" 9 0 0 eq_refl).
    unfold triple_le, triple_lt. intros [_ H]. lia.
Defined.

(** ** The response framer *)

Lemma raw_response_step_value (st : option Response * list value)
    (response : Element) (r : Response) :
  tag response = "value" → _to_response response = Return r →
  raw_response_step st response = Return (Some r, st.2).
Proof.
  intros Ht Hr. destruct st as [val msgs]. unfold raw_response_step.
  rewrite Ht, Hr. reflexivity.
Qed.

Lemma raw_response_step_message (st : option Response * list value)
    (response : Element) (m : value) :
  tag response = "message" → _to_value response = Return m →
  raw_response_step st response = Return (st.1, (st.2 ++ [m])%list).
Proof.
  intros Ht Hm. destruct st as [val msgs]. unfold raw_response_step.
  rewrite Ht, Hm. reflexivity.
Qed.

Lemma raw_response_step_other (st : option Response * list value)
    (response : Element) :
  tag response ≠ "value" → tag response ≠ "message" →
  raw_response_step st response = Return st.
Proof.
  intros Hv Hm. destruct st as [val msgs]. unfold raw_response_step.
  destruct (decide (tag response = "value")); [contradiction|].
  destruct (decide (tag response = "message")); [contradiction|].
  reflexivity.
Qed.

Lemma for_each_cons {S A : Type} (body : S → A → py S) (x : A) (l : list A)
    (s : S) :
  for_each body (x :: l) s = s' ← body s x; for_each body l s'.
Proof. reflexivity. Qed.

(** Without a [value] element the loop ends with [val] still [None]. *)
Lemma for_each_no_value (l : list Element) (msgs : list value) :
  Forall (fun c => tag c ≠ "value") l →
  Forall (fun c => tag c = "message" → ∃ m, _to_value c = Return m) l →
  ∃ msgs', for_each raw_response_step l (None, msgs) = Return (None, msgs').
Proof.
  revert msgs; induction l as [|c l IH]; intros msgs Hv Hm.
  - exists msgs. reflexivity.
  - apply Forall_cons in Hv as [Hc Hv]. apply Forall_cons in Hm as [Hmc Hm].
    rewrite for_each_cons. destruct (decide (tag c = "message")) as [Ht|Ht].
    + destruct (Hmc Ht) as (m & Hd).
      rewrite (raw_response_step_message _ _ _ Ht Hd). apply IH; assumption.
    + rewrite (raw_response_step_other _ _ Hc Ht). apply IH; assumption.
Qed.

Lemma raw_response_no_value (fromstring : string → option Element)
    (data : string) (root : Element) :
  fromstring ("<coqtoproot>" ++ _unescape data ++ "</coqtoproot>") = Some root →
  Forall (fun c => tag c ≠ "value") (children root) →
  Forall (fun c => tag c = "message" → ∃ m, _to_value c = Return m)
         (children root) →
  raw_response fromstring data = Return None.
Proof.
  intros Hp Hv Hm. unfold raw_response. rewrite Hp.
  destruct (for_each_no_value _ [] Hv Hm) as (msgs' & ->). reflexivity.
Qed.

Lemma raw_response_ParseError (fromstring : string → option Element)
    (data : string) :
  fromstring ("<coqtoproot>" ++ _unescape data ++ "</coqtoproot>") = None →
  raw_response fromstring data = Return None.
Proof. intros Hp. unfold raw_response. rewrite Hp. reflexivity. Qed.

(** A [message] decodes to the text of its first [richpp] child. *)
Lemma _to_value_message (xml richpp : Element) :
  tag xml = "message" →
  find (fun c => bool_decide (tag c = "richpp")) (children xml) = Some richpp →
  _to_value xml = Return (PyStr (join_itertext richpp)).
Proof.
  destruct xml as [tg attrs tx tl cs]. simpl. intros -> Hf. simpl.
  induction cs as [|c cs IH]; [discriminate|].
  simpl in Hf |- *. destruct (bool_decide (tag c = "richpp")) eqn:E.
  - injection Hf as ->. apply bool_decide_eq_true in E.
    destruct richpp as [tg attrs' tx' tl' cs']. simpl in E. subst tg. reflexivity.
  - apply IH, Hf.
Qed.

Lemma substring_all (s : string) : substring 0 (String.length s) s = s.
Proof. induction s as [|c s IH]; simpl; [reflexivity | rewrite IH; reflexivity]. Qed.

(** [B[:i] + B[i:] == B] *)
Lemma substring_split (s : string) (i : nat) :
  substring 0 i s ++ substring i (String.length s - i) s = s.
Proof.
  revert i; induction s as [|c s IH]; intros [|i]; simpl; try reflexivity.
  - rewrite substring_all. reflexivity.
  - change (String c (substring 0 i s ++ substring i (String.length s - i) s)
            = String c s).
    f_equal. apply IH.
Qed.

Lemma _to_response_good (xml c : Element) (cs : list Element) (v : value) :
  tag xml = "value" → attrib xml !! "val" = Some "good" →
  children xml = c :: cs → _to_value c = Return v →
  _to_response xml = Return (Ok v "").
Proof.
  intros Ht Hval Hc Hv. unfold _to_response.
  rewrite (decide_tag_value _ _ _ _ Ht), Hval, Hc, Hv. reflexivity.
Qed.

Lemma find_then_find {A B : Type} (p : A → bool) (k : A → B) (d : B) (l : list A) :
  find_then p k d l = match find p l with Some x => k x | None => d end.
Proof.
  induction l as [|x l IH]; [reflexivity|].
  simpl. destruct (p x); [reflexivity | exact IH].
Qed.

Lemma _to_value_message_str (xml : Element) (v : value) :
  tag xml = "message" → _to_value xml = Return v → ∃ t, v = PyStr t.
Proof.
  destruct xml as [tg attrs tx tl cs]. simpl. intros -> H.
  change (find_then (fun c => bool_decide (tag c = "richpp")) _to_value
            (Raise AttributeError) cs = Return v) in H.
  rewrite find_then_find in H.
  destruct (find _ cs) as [r|] eqn:Hf; [|discriminate H].
  apply find_some in Hf as [_ Hr]. apply bool_decide_eq_true in Hr.
  destruct r as [tg attrs' tx' tl' cs']. simpl in Hr. subst tg.
  change (Return (PyStr (join_itertext (mkElement "richpp" attrs' tx' tl' cs')))
          = Return v) in H.
  injection H as <-. eauto.
Qed.

Lemma str_join_strs (sep : string) (ts : list string) :
  str_join sep (map PyStr ts) = Return (sjoin sep ts).
Proof.
  unfold str_join.
  rewrite (mapM_Return _ (fun v => match v with PyStr s => s | _ => "" end)).
  - rewrite map_map, map_id. reflexivity.
  - apply List.Forall_forall. intros v Hv. apply in_map_iff in Hv as (t & <- & _).
    reflexivity.
Qed.

Lemma for_each_app {S A : Type} (body : S → A → py S) (l1 l2 : list A) (s : S) :
  for_each body (l1 ++ l2) s = s' ← for_each body l1 s; for_each body l2 s'.
Proof.
  revert s; induction l1 as [|x l1 IH]; intros s; [reflexivity|].
  change ((x :: l1) ++ l2)%list with (x :: (l1 ++ l2))%list.
  rewrite !for_each_cons. destruct (body s x) as [s'|e]; [|reflexivity].
  rewrite !bind_Return. apply IH.
Qed.

(** The loop of [raw_response] over elements that decode. *)
Lemma for_each_decodes (l : list Element) (val : option Response)
    (msgs : list value) :
  Forall decodes l →
  for_each raw_response_step l (val, msgs)
  = Return (match last (value_responses l) with
            | Some r => Some r
            | None => val
            end,
            (msgs ++ map PyStr (message_texts l))%list).
Proof.
  intros H. revert val msgs.
  induction H as [|c l [Hv Hm] _ IH]; intros val msgs.
  - simpl. rewrite app_nil_r. reflexivity.
  - rewrite for_each_cons. unfold value_responses, message_texts.
    cbn [omap list_omap]. fold (value_responses l) (message_texts l).
    destruct (decide (tag c = "value")) as [Ht|Ht].
    + destruct (Hv Ht) as (r & Hr).
      rewrite (raw_response_step_value _ _ _ Ht Hr), bind_Return, Hr, IH.
      destruct (decide (tag c = "message")) as [Ht'|_]; [congruence|].
      rewrite last_cons. simpl. destruct (last (value_responses l)); reflexivity.
    + destruct (decide (tag c = "message")) as [Ht'|Ht'].
      * destruct (Hm Ht') as (v & Hd).
        destruct (_to_value_message_str _ _ Ht' Hd) as (t & ->).
        rewrite (raw_response_step_message _ _ _ Ht' Hd), bind_Return, Hd, IH.
        simpl. rewrite <- app_assoc. reflexivity.
      * rewrite (raw_response_step_other _ _ Ht Ht'), bind_Return. apply IH.
Qed.

(** C4 (amended).  When the buffer parses into two [message] elements
    followed by a [value] element with [val="good"], the messages decode
    to the texts [t1] and [t2] and the first child of the [value] element
    decodes, the result is a success whose message is [t1], a blank line,
    [t2].  When the buffer parses, no child of the root is a [value]
    element and every [message] child decodes, the result is [None]. *)
Theorem raw_response_messages (fromstring : string → option Element)
    (data : string) (root : Element) :
  fromstring ("<coqtoproot>" ++ _unescape data ++ "</coqtoproot>") = Some root →
  (∀ (m1 m2 v c : Element) (cs : list Element) (t1 t2 : string) (x : value),
     children root = [m1; m2; v] →
     tag m1 = "message" → tag m2 = "message" → tag v = "value" →
     attrib v !! "val" = Some "good" →
     _to_value m1 = Return (PyStr t1) → _to_value m2 = Return (PyStr t2) →
     children v = c :: cs → _to_value c = Return x →
     raw_response fromstring data
     = Return (Some (Ok x (t1 ++ newline ++ newline ++ t2)))) ∧
  (Forall (fun c => tag c ≠ "value") (children root) →
   Forall (fun c => tag c = "message" → ∃ m, _to_value c = Return m)
          (children root) →
   raw_response fromstring data = Return None).
Proof.
  intros Hp. split.
  - intros m1 m2 v c cs t1 t2 x Hch H1 H2 Hv Hval Hd1 Hd2 Hc Hx.
    unfold raw_response. rewrite Hp, Hch.
    rewrite for_each_cons, (raw_response_step_message _ _ _ H1 Hd1), bind_Return.
    rewrite for_each_cons, (raw_response_step_message _ _ _ H2 Hd2), bind_Return.
    rewrite for_each_cons,
      (raw_response_step_value _ _ _ Hv (_to_response_good _ _ _ _ Hv Hval Hc Hx)).
    reflexivity.
  - apply raw_response_no_value, Hp.
Qed.

Lemma raw_response_messages_witness :
  raw_response ET_fromstring
    ("<message><message_level val='notice'/><richpp>Hello <b>w</b>orld</richpp>"
     ++ "</message><message><richpp>second</richpp></message>"
     ++ "<value val='good'><int>3</int></value>")
  = Return (Some (Ok (PyInt 3) ("Hello world" ++ newline ++ newline ++ "second")))
  ∧
  raw_response ET_fromstring
    "<message><richpp>Hello</richpp></message><feedback>x</feedback>"
  = Return None.
Proof.
  split.
  - lazymatch goal with
    | |- raw_response _ ?d = _ =>
        eapply (proj1 (raw_response_messages ET_fromstring d _
                         ltac:(vm_compute; reflexivity)))
    end.
    all: [> (vm_compute; reflexivity) ..].
  - lazymatch goal with
    | |- raw_response _ ?d = _ =>
        eapply (proj2 (raw_response_messages ET_fromstring d _
                         ltac:(vm_compute; reflexivity)))
    end.
    + apply List.Forall_cons; [vm_compute; discriminate|].
      apply List.Forall_cons; [vm_compute; discriminate|].
      constructor.
    + apply List.Forall_cons.
      { intros _. eexists. vm_compute. reflexivity. }
      apply List.Forall_cons.
      { intros H. vm_compute in H. discriminate H. }
      constructor.
Defined.

(** C4 as stated fails on a buffer that parses and has no [value] child:
    a [message] element without a [richpp] child makes [raw_response]
    raise instead of answering [None]. *)
Lemma message_without_richpp_raises :
  ∃ root,
    ET_fromstring ("<coqtoproot>"
                   ++ _unescape "<message><message_level val='info'/></message>"
                   ++ "</coqtoproot>") = Some root ∧
    Forall (fun c => tag c ≠ "value") (children root) ∧
    raw_response ET_fromstring "<message><message_level val='info'/></message>"
    = Raise AttributeError.
Proof.
  eexists. split; [vm_compute; reflexivity|]. split.
  - repeat constructor; discriminate.
  - vm_compute. reflexivity.
Qed.

Lemma untail_to_value (c : Element) : _to_value (untail c) = _to_value c.
Proof. destruct c as [tg attrs tx tl cs]. reflexivity. Qed.

Lemma untail_to_response (c : Element) : _to_response (untail c) = _to_response c.
Proof. destruct c as [tg attrs tx tl cs]. reflexivity. Qed.

Lemma decodes_untail (c : Element) : decodes (untail c) ↔ decodes c.
Proof.
  unfold decodes. rewrite untail_to_value, untail_to_response. reflexivity.
Qed.

Lemma Forall_decodes_untail (l : list Element) :
  Forall decodes (map untail l) ↔ Forall decodes l.
Proof.
  induction l as [|c l IH]; simpl.
  - split; constructor.
  - rewrite !Forall_cons, decodes_untail, IH. reflexivity.
Qed.

(** When the loop of [raw_response] ends without raising, every [value]
    and [message] element it went through decoded. *)
Lemma for_each_returns (l : list Element) (st st' : option Response * list value) :
  for_each raw_response_step l st = Return st' → Forall decodes l.
Proof.
  revert st; induction l as [|c l IH]; intros st H; [constructor|].
  rewrite for_each_cons in H.
  destruct (raw_response_step st c) as [st1|e] eqn:E; [|discriminate H].
  rewrite bind_Return in H. constructor; [|exact (IH _ H)].
  destruct st as [val msgs]. unfold raw_response_step in E.
  split; intros Ht.
  - destruct (decide (tag c = "value")) as [_|Hn]; [|contradiction].
    destruct (_to_response c) as [r|e]; [eauto | discriminate E].
  - destruct (decide (tag c = "value")) as [Hv|_]; [congruence|].
    rewrite bind_Return in E.
    destruct (decide (tag c = "message")) as [_|Hn]; [|contradiction].
    destruct (_to_value c) as [v|e]; [eauto | discriminate E].
Qed.

(** Among elements that decode there is a last response exactly when
    there is a [value] element. *)
Lemma last_value_responses (l : list Element) :
  Forall decodes l →
  (is_Some (last (value_responses l)) ↔ Exists (fun c => tag c = "value") l).
Proof.
  induction 1 as [|c l [Hv _] _ IH].
  - split; [intros [x Hx]; discriminate Hx | intros H; inversion H].
  - unfold value_responses. cbn [omap list_omap]. fold (value_responses l).
    rewrite Exists_cons.
    destruct (decide (tag c = "value")) as [Ht|Ht].
    + destruct (Hv Ht) as (r & ->). rewrite last_cons.
      split; [intros _; left; exact Ht|].
      intros _. destruct (last (value_responses l)); eauto.
    + rewrite IH. split; [tauto | intros [H|H]; [contradiction | exact H]].
Qed.

Section Framing.

Variable fromstring : string → option Element.

(** On a buffer that parses into elements that decode, the call returns:
    a completed result with a [value] element, [None] without. *)
Lemma raw_response_returns (data : string) (root : Element) :
  fromstring ("<coqtoproot>" ++ _unescape data ++ "</coqtoproot>") = Some root →
  Forall decodes (children root) →
  (Exists (fun c => tag c = "value") (children root) →
   ∃ r, raw_response fromstring data = Return (Some r)) ∧
  (¬ Exists (fun c => tag c = "value") (children root) →
   raw_response fromstring data = Return None).
Proof.
  intros Hp Hd. unfold raw_response.
  rewrite Hp, (for_each_decodes _ _ _ Hd), bind_Return.
  pose proof (last_value_responses _ Hd) as Hl.
  destruct (last (value_responses (children root))) as [r|].
  - split; [|intros Hn; exfalso; apply Hn, Hl; eauto].
    intros _. simpl app. rewrite str_join_strs. eauto.
  - split; [|reflexivity].
    intros He. apply Hl in He as [x Hx]. discriminate Hx.
Qed.

(** A completed result comes from a buffer whose [value] and [message]
    elements all decode, with a [value] element among them. *)
Lemma raw_response_complete_inv (data : string) (root : Element) (r : Response) :
  fromstring ("<coqtoproot>" ++ _unescape data ++ "</coqtoproot>") = Some root →
  raw_response fromstring data = Return (Some r) →
  Forall decodes (children root) ∧
  Exists (fun c => tag c = "value") (children root).
Proof.
  intros Hp H.
  assert (Forall decodes (children root)) as Hd.
  { unfold raw_response in H. rewrite Hp in H.
    destruct (for_each raw_response_step (children root) (None, [])) as [st|e] eqn:E;
      [|discriminate H].
    exact (for_each_returns _ _ _ E). }
  split; [exact Hd|].
  destruct (decide (Exists (fun c => tag c = "value") (children root))) as [He|Hn];
    [exact He|].
  rewrite (proj2 (raw_response_returns _ _ Hp Hd) Hn) in H. discriminate H.
Qed.

End Framing.

(** C2 (amended).  Let the buffer [B], wrapped in the synthetic root,
    parse, and let the parser read from a well-formed prefix of [B] the
    elements it reads from [B] (up to the text after them).  Then [B] is
    mapped to a completed result exactly when its [value] and [message]
    elements decode and there is a [value] element among them; and when it
    is, for the cut at any position [i]: the first chunk alone gives
    [None] unless it is itself well-formed with a [value] element among
    the children of the root, in which case it gives a completed result
    (it raises in neither case); and calling the framer on the first
    chunk and then on the two chunks put together gives the completed
    result of the single call on [B]. *)
Theorem raw_response_split (fromstring : string → option Element)
    (B : string) (i : nat) (rootB : Element) :
  let first := substring 0 i B in
  let rest := substring i (String.length B - i) B in
  fromstring ("<coqtoproot>" ++ _unescape B ++ "</coqtoproot>") = Some rootB →
  (∀ root1,
     fromstring ("<coqtoproot>" ++ _unescape first ++ "</coqtoproot>") = Some root1 →
     reads_prefix root1 rootB) →
  ((∃ r, raw_response fromstring B = Return (Some r)) ↔
   Forall decodes (children rootB) ∧
   Exists (fun c => tag c = "value") (children rootB)) ∧
  (∀ r, raw_response fromstring B = Return (Some r) →
     (raw_response fromstring first = Return None ↔ ¬ holds_value fromstring first) ∧
     (holds_value fromstring first →
      ∃ r1, raw_response fromstring first = Return (Some r1)) ∧
     (_ ← raw_response fromstring first; raw_response fromstring (first ++ rest))
     = Return (Some r)).
Proof.
  intros first rest HpB Hst. split.
  - split.
    + intros (r & Hr). exact (raw_response_complete_inv _ _ _ _ HpB Hr).
    + intros [Hd He]. exact (proj1 (raw_response_returns _ _ _ HpB Hd) He).
  - intros r Hr.
    destruct (raw_response_complete_inv _ _ _ _ HpB Hr) as [HdB _].
    assert ((raw_response fromstring first = Return None ↔
             ¬ holds_value fromstring first) ∧
            (holds_value fromstring first →
             ∃ r1, raw_response fromstring first = Return (Some r1))) as [H1 H2].
    { destruct (fromstring ("<coqtoproot>" ++ _unescape first ++ "</coqtoproot>"))
        as [root1|] eqn:Hp1.
      - destruct (Hst root1 eq_refl) as (k & Hk).
        assert (Forall decodes (children root1)) as Hd1.
        { apply Forall_decodes_untail. rewrite Hk.
          apply Forall_take, Forall_decodes_untail, HdB. }
        destruct (raw_response_returns fromstring first root1 Hp1 Hd1) as [Hs Hn].
        assert (holds_value fromstring first
                ↔ Exists (fun c => tag c = "value") (children root1)) as Hh.
        { unfold holds_value. rewrite Hp1. split.
          - intros (root & [= <-] & He). exact He.
          - intros He. eauto. }
        rewrite Hh. split; [|exact Hs]. split.
        + intros Hnone He. destruct (Hs He) as (r1 & Hr1). congruence.
        + exact Hn.
      - assert (¬ holds_value fromstring first) as Hh.
        { unfold holds_value. rewrite Hp1.
          intros (root & Hroot & _). discriminate Hroot. }
        split; [|intros H; contradiction].
        split; [intros _; exact Hh|]. intros _.
        apply raw_response_ParseError, Hp1. }
    split; [exact H1|]. split; [exact H2|].
    assert (∃ x, raw_response fromstring first = Return x) as (x & ->).
    { destruct (fromstring ("<coqtoproot>" ++ _unescape first ++ "</coqtoproot>"))
        as [root1|] eqn:Hp1.
      - destruct (decide (Exists (fun c => tag c = "value") (children root1)))
          as [He|Hn].
        + destruct H2 as (r1 & Hr1); [exists root1; split; [exact Hp1 | exact He]|].
          eauto.
        + exists None. apply H1. intros (root & Hroot & He).
          rewrite Hp1 in Hroot. injection Hroot as <-. contradiction.
      - exists None. apply raw_response_ParseError, Hp1. }
    rewrite bind_Return. unfold first, rest. rewrite substring_split. exact Hr.
Qed.

Lemma raw_response_split_witness :
  let B := "<message><richpp>hi</richpp></message><value val='good'><unit/></value><feedback/>" in
  raw_response ET_fromstring (substring 0 20 B) = Return None ∧
  raw_response ET_fromstring (substring 0 38 B) = Return None ∧
  raw_response ET_fromstring (substring 0 60 B) = Return None ∧
  (∃ r1, raw_response ET_fromstring (substring 0 71 B) = Return (Some r1)) ∧
  (_ ← raw_response ET_fromstring (substring 0 38 B);
   raw_response ET_fromstring
     (substring 0 38 B ++ substring 38 (String.length B - 38) B))
  = Return (Some (Ok (PyTuple []) "hi")).
Proof.
  intros B.
  assert (∃ rootB,
            ET_fromstring ("<coqtoproot>" ++ _unescape B ++ "</coqtoproot>")
            = Some rootB ∧
            ∀ i root1,
              In i [20; 38; 60; 71]%nat →
              ET_fromstring ("<coqtoproot>" ++ _unescape (substring 0 i B)
                             ++ "</coqtoproot>") = Some root1 →
              reads_prefix root1 rootB) as (rootB & HpB & Hst).
  { eexists. split; [vm_compute; reflexivity|].
    intros i root1 Hi H.
    repeat (destruct Hi as [<-|Hi]; [vm_compute in H|]); try contradiction.
    - discriminate H.
    - injection H as <-. exists 1%nat. vm_compute. reflexivity.
    - discriminate H.
    - injection H as <-. exists 2%nat. vm_compute. reflexivity. }
  assert (raw_response ET_fromstring B = Return (Some (Ok (PyTuple []) "hi"))) as Hr
    by (vm_compute; reflexivity).
  split; [|split; [|split; [|split]]].
  - apply (proj2 (raw_response_split ET_fromstring B 20 rootB HpB
                    (fun root1 => Hst 20%nat root1 ltac:(simpl; tauto))) _ Hr).
    intros (root & H & _). vm_compute in H. discriminate H.
  - apply (proj2 (raw_response_split ET_fromstring B 38 rootB HpB
                    (fun root1 => Hst 38%nat root1 ltac:(simpl; tauto))) _ Hr).
    intros (root & H & He). vm_compute in H. injection H as <-.
    vm_compute in He.
    inversion He as [? ? Ht|? ? Ht]; [discriminate Ht | inversion Ht].
  - apply (proj2 (raw_response_split ET_fromstring B 60 rootB HpB
                    (fun root1 => Hst 60%nat root1 ltac:(simpl; tauto))) _ Hr).
    intros (root & H & _). vm_compute in H. discriminate H.
  - apply (proj2 (raw_response_split ET_fromstring B 71 rootB HpB
                    (fun root1 => Hst 71%nat root1 ltac:(simpl; tauto))) _ Hr).
    eexists. split; [vm_compute; reflexivity|].
    apply Exists_cons_tl, Exists_cons_hd. reflexivity.
  - apply (proj2 (raw_response_split ET_fromstring B 38 rootB HpB
                    (fun root1 => Hst 38%nat root1 ltac:(simpl; tauto))) _ Hr).
Defined.

(** C2 as stated fails: the buffer below gives a completed result, and
    so does its first chunk of 33 bytes, which is the whole [value]
    element. *)
Lemma complete_prefix_is_complete :
  let B := "<value val='good'><unit/></value><feedback/>" in
  raw_response ET_fromstring B = Return (Some (Ok (PyTuple []) "")) ∧
  substring 0 33 B = "<value val='good'><unit/></value>" ∧
  raw_response ET_fromstring (substring 0 33 B)
  = Return (Some (Ok (PyTuple []) "")).
Proof. intros B. split; [|split]; vm_compute; reflexivity. Qed.

(** Every proper prefix of a buffer holding one [value] element and
    nothing after it is incomplete. *)
Example single_response_prefixes :
  let B := "<message><richpp>hi</richpp></message><value val='good'><unit/></value>" in
  forallb (fun i => match raw_response ET_fromstring (substring 0 i B) with
                    | Return None => true
                    | _ => false
                    end) (seq 0 (String.length B)) = true ∧
  raw_response ET_fromstring B = Return (Some (Ok (PyTuple []) "hi")).
Proof. intros B. split; vm_compute; reflexivity. Qed.

(** On the buffer of the counterexample, the prefixes that give a
    completed result are the one that ends with the [value] element and
    the buffer itself; every other one gives [None]. *)
Example value_then_feedback_prefixes :
  let B := "<value val='good'><unit/></value><feedback/>" in
  List.filter (fun i => match raw_response ET_fromstring (substring 0 i B) with
                        | Return None => false
                        | _ => true
                        end) (seq 0 (S (String.length B))) = [33; 44]%nat ∧
  raw_response ET_fromstring (substring 0 40 B) = Return None.
Proof. intros B. split; vm_compute; reflexivity. Qed.

(** ** Commands *)

(** The bytes of the other commands, as the table of calls has them. *)
Example command_bytes :
  init = Return ("<call val=" ++ dquote ++ "Init" ++ dquote ++ "><option val="
                 ++ dquote ++ "none" ++ dquote ++ " /></call>") ∧
  goal = Return ("<call val=" ++ dquote ++ "Goal" ++ dquote ++ "><unit /></call>") ∧
  edit_at (StateId 5)
  = Return ("<call val=" ++ dquote ++ "Edit_at" ++ dquote ++ "><state_id val="
            ++ dquote ++ "5" ++ dquote ++ " /></call>") ∧
  query (PyStr "Print nat.") (StateId 2)
  = Return ("<call val=" ++ dquote ++ "Query" ++ dquote
            ++ "><pair><string>Print nat.</string><state_id val="
            ++ dquote ++ "2" ++ dquote ++ " /></pair></call>").
Proof. repeat split; vm_compute; reflexivity. Qed.

(** C7.  The bytes of the [add] command for ["Lemma foo."] and state 3
    parse back to a [call] node with [val="Add"] whose only child decodes
    to [(("Lemma foo.", -1), (3, True))]; and for any command and state
    that marshal, [add] returns the serialization of such a node, its
    argument decoding to the pair of pairs [((cmd, -1), (state, True))]. *)
Theorem add_command :
  (∃ (data : string) (call arg : Element),
     add (PyStr "Lemma foo.") (PyInt 3) = Return data ∧
     data = "<call val=" ++ dquote ++ "Add" ++ dquote ++ "><pair><pair>"
            ++ "<string>Lemma foo.</string><int>-1</int></pair><pair>"
            ++ "<int>3</int><bool val=" ++ dquote ++ "true" ++ dquote
            ++ " /></pair></pair></call>" ∧
     ET_fromstring data = Some call ∧
     tag call = "call" ∧ attrib call !! "val" = Some "Add" ∧
     children call = [arg] ∧
     _to_value arg
     = Return (PyTuple [PyTuple [PyStr "Lemma foo."; PyInt (-1)];
                        PyTuple [PyInt 3; PyBool true]])) ∧
  (∀ cmd state : value,
     marshallable cmd = true → marshallable state = true →
     ∃ call arg : Element,
       add cmd state = Return (tostring call) ∧
       tag call = "call" ∧ attrib call !! "val" = Some "Add" ∧
       children call = [arg] ∧
       _to_value arg
       = Return (PyTuple [PyTuple [cmd; PyInt (-1)]; PyTuple [state; PyBool true]])).
Proof.
  split.
  - do 3 eexists.
    split; [vm_compute; reflexivity|]. split; [vm_compute; reflexivity|].
    split; [vm_compute; reflexivity|]. split; [reflexivity|].
    split; [vm_compute; reflexivity|]. split; [reflexivity|].
    vm_compute. reflexivity.
  - intros cmd state Hc Hs.
    set (a := PyTuple [PyTuple [cmd; PyInt (-1)]; PyTuple [state; PyBool true]]).
    assert (marshallable a = true) as Ha.
    { change (marshallable a) with
        ((marshallable cmd && true) && (marshallable state && true)).
      rewrite Hc, Hs. reflexivity. }
    apply marshal_roundtrip in Ha. apply bind_inv in Ha as (arg & Henc & Hdec).
    exists (new_Element "call" (attribs_of (Some "Add")) [arg]), arg.
    split; [|split; [reflexivity | split; [apply lookup_singleton_eq | split; [reflexivity | exact Hdec]]]].
    unfold add. fold a.
    rewrite (_build_xml_single "call" (Some "Add") a arg); [reflexivity | discriminate | discriminate | exact Henc].
Qed.

Lemma add_command_witness :
  ∃ call arg : Element,
    add (PyStr "Print nat.") (StateId 7) = Return (tostring call) ∧
    tag call = "call" ∧ attrib call !! "val" = Some "Add" ∧
    children call = [arg] ∧
    _to_value arg
    = Return (PyTuple [PyTuple [PyStr "Print nat."; PyInt (-1)];
                       PyTuple [StateId 7; PyBool true]]).
Proof.
  apply (proj2 add_command (PyStr "Print nat.") (StateId 7)); reflexivity.
Defined.

(** * Further properties *)

(** ** The decoder, tag by tag *)

Lemma record_class_inv (tg : string) (cls : string) :
  record_class tg = Some cls →
  (tg = "goal" ∧ cls = "Goal") ∨ (tg = "goals" ∧ cls = "Goals") ∨
  (tg = "option_state" ∧ cls = "OptionState") ∨
  (tg = "status" ∧ cls = "Status") ∨ (tg = "coq_info" ∧ cls = "CoqInfo").
Proof.
  unfold record_class. intros H.
  repeat (destruct (decide _) as [->|_] in H; [injection H as <-; tauto|]).
  discriminate H.
Qed.

(** X1.  A [goal], [goals], [option_state], [status] or [coq_info] node
    whose children all decode gives the namedtuple of its tag with the
    decoded children as fields, in order, when their number is the number
    of fields (three for [goal], four for the others), and raises a
    [TypeError] otherwise.  The namedtuple cannot be encoded back:
    [_from_value] raises an error naming its type. *)
Theorem record_decoding (xml : Element) (vs : list value) (cls : string) :
  record_class (tag xml) = Some cls →
  mapM _to_value (children xml) = Return vs →
  (length vs = record_arity (tag xml) →
   ∃ v, _to_value xml = Return v ∧ fields v = vs ∧
        type_str v = "<class 'xmlInterface." ++ cls ++ "'>" ∧
        _from_value v = Raise (ValueError ("Expected , but got " ++ type_str v))) ∧
  (length vs ≠ record_arity (tag xml) → _to_value xml = Raise TypeError).
Proof.
  intros Hc Hvs. destruct xml as [tg attrs tx tl cs]. simpl in *.
  apply record_class_inv in Hc.
  destruct Hc as [[-> ->]|[[-> ->]|[[-> ->]|[[-> ->]|[-> ->]]]]];
    (split; intros Hlen;
     [ destruct vs as [|a [|b [|c [|d [|e vs]]]]]; try discriminate Hlen;
       eexists; (split; [simpl; rewrite Hvs; reflexivity|]);
       repeat split
     | simpl; rewrite Hvs;
       destruct vs as [|a [|b [|c [|d [|e vs]]]]]; try reflexivity;
       exfalso; apply Hlen; reflexivity ]).
Qed.

Lemma record_decoding_witness :
  let num n := mkElement "int" ∅ (Some n) None [] in
  let str s := mkElement "string" ∅ (Some s) None [] in
  let hyps := mkElement "list" ∅ None None [str "n : nat"] in
  (∃ v, _to_value (mkElement "goal" ∅ None None [str "7"; hyps; str "n = n"])
        = Return v ∧
        fields v = [PyStr "7"; PyList [PyStr "n : nat"]; PyStr "n = n"] ∧
        type_str v = "<class 'xmlInterface.Goal'>" ∧
        _from_value v = Raise (ValueError ("Expected , but got " ++ type_str v))) ∧
  _to_value (mkElement "status" ∅ None None [num "1"; num "2"]) = Raise TypeError.
Proof.
  intros num str hyps. split.
  - apply (record_decoding (mkElement "goal" ∅ None None [str "7"; hyps; str "n = n"])
             _ "Goal" eq_refl eq_refl). reflexivity.
  - apply (record_decoding (mkElement "status" ∅ None None [num "1"; num "2"])
             _ "Status" eq_refl eq_refl). discriminate.
Defined.

(** X2.  A [string] or [richpp] node always decodes, to the text of the
    node followed, for each child in order, by the text content of the
    child and the text after it; the tags and the attributes inside play
    no part. *)
Theorem text_decoding :
  (∀ xml : Element,
     tag xml = "string" ∨ tag xml = "richpp" →
     _to_value xml
     = Return (PyStr (default "" (text xml)
                      ++ concat_str (map (fun e => join_itertext e
                                                   ++ default "" (tail e))
                                         (children xml))))) ∧
  (∀ (tg tg' : string) (attrs attrs' : gmap string string)
     (tx tl tl' : option string) (cs : list Element),
     join_itertext (mkElement tg attrs tx tl cs)
     = join_itertext (mkElement tg' attrs' tx tl' cs)).
Proof.
  split.
  - intros xml H. rewrite <- join_itertext_eq.
    destruct xml as [tg attrs tx tl cs]. simpl in H.
    destruct H as [-> | ->]; reflexivity.
  - reflexivity.
Qed.

Lemma text_decoding_witness :
  _to_value (mkElement "richpp" ∅ (Some "Hello ") None
               [mkElement "b" {[ "class" := "kw" ]} (Some "w") (Some "orld")
                  [mkElement "i" ∅ None (Some "!") []]])
  = Return (PyStr "Hello w!orld").
Proof.
  apply (proj1 text_decoding
           (mkElement "richpp" ∅ (Some "Hello ") None
              [mkElement "b" {[ "class" := "kw" ]} (Some "w") (Some "orld")
                 [mkElement "i" ∅ None (Some "!") []]])).
  right. reflexivity.
Defined.

(** X3.  A [message] node decodes to the text content of the first of
    its children tagged [richpp], whatever else it holds; without such a
    child the decoding raises an [AttributeError]. *)
Theorem message_decoding (xml : Element) :
  tag xml = "message" →
  _to_value xml
  = match find (fun c => bool_decide (tag c = "richpp")) (children xml) with
    | Some richpp => Return (PyStr (join_itertext richpp))
    | None => Raise AttributeError
    end.
Proof.
  intros Ht. destruct xml as [tg attrs tx tl cs]. simpl in Ht. subst tg.
  change (_to_value (mkElement "message" attrs tx tl cs))
    with (find_then (fun c => bool_decide (tag c = "richpp")) _to_value
            (Raise AttributeError) cs).
  rewrite find_then_find. simpl children.
  destruct (find _ cs) as [r|] eqn:Hf; [|reflexivity].
  apply find_some in Hf as [_ Hr]. apply bool_decide_eq_true in Hr.
  destruct r as [tg attrs' tx' tl' cs']. simpl in Hr. subst tg. reflexivity.
Qed.

Lemma message_decoding_witness :
  _to_value (mkElement "message" ∅ None None
               [mkElement "message_level" {[ "val" := "warning" ]} None None [];
                mkElement "richpp" ∅ (Some "first") None [];
                mkElement "richpp" ∅ (Some "second") None []])
  = Return (PyStr "first") ∧
  _to_value (mkElement "message" ∅ (Some "text") None
               [mkElement "string" ∅ (Some "no richpp") None []])
  = Raise AttributeError.
Proof.
  split.
  - apply (message_decoding
             (mkElement "message" ∅ None None
                [mkElement "message_level" {[ "val" := "warning" ]} None None [];
                 mkElement "richpp" ∅ (Some "first") None [];
                 mkElement "richpp" ∅ (Some "second") None []]) eq_refl).
  - apply (message_decoding
             (mkElement "message" ∅ (Some "text") None
                [mkElement "string" ∅ (Some "no richpp") None []]) eq_refl).
Defined.

(** The first exception stops the traversal. *)
Lemma mapM_first_error {A B : Type} (f : A → py B) (l1 l2 : list A) (x : A)
    (e : exn) :
  Forall (fun a => ∃ b, f a = Return b) l1 → f x = Raise e →
  mapM f (l1 ++ x :: l2) = Raise e.
Proof.
  intros H Hx. induction H as [|a l1 (b & Hb) _ IH].
  - simpl app. rewrite mapM_cons, Hx. reflexivity.
  - change ((a :: l1) ++ x :: l2)%list with (a :: (l1 ++ x :: l2))%list.
    rewrite mapM_cons, Hb, IH. reflexivity.
Qed.

Lemma _to_value_sequence (xml : Element) :
  In (tag xml) sequence_tags →
  ∃ k : list value → py value,
    _to_value xml = mapM _to_value (children xml) ≫= k.
Proof.
  destruct xml as [tg attrs tx tl cs]. simpl.
  intros [<-|[<-|[<-|[<-|[<-|[<-|[<-|[]]]]]]]]; eexists; reflexivity.
Qed.

(** X4.  In a [list], [pair] or record node, the children are decoded in
    order and the first one that fails decides: its exception is the
    exception of the node, whatever comes after it and whatever the number
    of children. *)
Theorem sequence_decoding_first_error (xml c : Element) (l1 l2 : list Element)
    (e : exn) :
  In (tag xml) sequence_tags →
  children xml = (l1 ++ c :: l2)%list →
  Forall (fun x => ∃ v, _to_value x = Return v) l1 →
  _to_value c = Raise e →
  _to_value xml = Raise e.
Proof.
  intros Ht Hc Hl He. destruct (_to_value_sequence xml Ht) as (k & ->).
  rewrite Hc, (mapM_first_error _ _ _ _ _ Hl He). reflexivity.
Qed.

Lemma sequence_decoding_first_error_witness :
  _to_value (mkElement "goal" ∅ None None
               [mkElement "string" ∅ (Some "1") None [];
                mkElement "bool" {[ "val" := "yes" ]} None None [];
                mkElement "feedback" ∅ None None []])
  = Raise (ValueError "Expected true or false, but got yes").
Proof.
  apply (sequence_decoding_first_error
           (mkElement "goal" ∅ None None
              [mkElement "string" ∅ (Some "1") None [];
               mkElement "bool" {[ "val" := "yes" ]} None None [];
               mkElement "feedback" ∅ None None []])
           (mkElement "bool" {[ "val" := "yes" ]} None None [])
           [mkElement "string" ∅ (Some "1") None []]
           [mkElement "feedback" ∅ None None []]).
  - simpl. tauto.
  - reflexivity.
  - repeat constructor. eexists. reflexivity.
  - reflexivity.
Defined.

Lemma wrapper_of_inv (tg : string) (val : option string) (C : value → value) :
  wrapper_of tg val = Some C →
  (tg = "option" ∧ val = Some "some" ∧ C = Option) ∨
  (tg = "union" ∧ val = Some "in_l" ∧ C = Inl) ∨
  (tg = "union" ∧ val = Some "in_r" ∧ C = Inr) ∨
  (tg = "evar" ∧ C = Evar) ∨ (tg = "option_value" ∧ C = OptionValue).
Proof.
  unfold wrapper_of. intros H.
  repeat (destruct (decide _) as [Hd|_] in H; [injection H as <-; tauto|]).
  discriminate H.
Qed.

(** X5.  [option] with [val="some"], [union] with [val="in_l"] or
    [val="in_r"], [evar] and [option_value] decode their first child and
    nothing else: further children are ignored, and a node without
    children raises an [IndexError].  [option] with [val="none"] gives
    [Option(None)] whatever its children.  An [option] or [union] node
    with another [val], or none, raises an error that names it. *)
Theorem wrapper_decoding (xml : Element) :
  (∀ C, wrapper_of (tag xml) (attrib xml !! "val") = Some C →
     match children xml with
     | c :: _ => _to_value xml = v ← _to_value c; Return (C v)
     | [] => _to_value xml = Raise IndexError
     end) ∧
  (tag xml = "option" → attrib xml !! "val" = Some "none" →
   _to_value xml = Return (Option PyNone)) ∧
  (tag xml = "option" →
   attrib xml !! "val" ≠ Some "none" → attrib xml !! "val" ≠ Some "some" →
   _to_value xml = Raise (ValueError ("Expected none or some, but got "
                                      ++ str_of_opt (attrib xml !! "val")))) ∧
  (tag xml = "union" →
   attrib xml !! "val" ≠ Some "in_l" → attrib xml !! "val" ≠ Some "in_r" →
   _to_value xml = Raise (ValueError ("Expected in_l or in_r, but got "
                                      ++ str_of_opt (attrib xml !! "val")))).
Proof.
  destruct xml as [tg attrs tx tl cs]. simpl.
  split; [|split; [|split]].
  - intros C HC. apply wrapper_of_inv in HC.
    destruct HC as [(-> & Hv & ->)|[(-> & Hv & ->)|[(-> & Hv & ->)|[[-> ->]|[-> ->]]]]];
      destruct cs as [|c cs]; simpl; rewrite ?Hv; reflexivity.
  - intros -> Hv. simpl. rewrite Hv. reflexivity.
  - intros -> Hn Hs. simpl.
    destruct (decide (attrs !! "val" = Some "none")); [contradiction|].
    destruct (decide (attrs !! "val" = Some "some")); [contradiction|].
    reflexivity.
  - intros -> Hl Hr. simpl.
    destruct (decide (attrs !! "val" = Some "in_l")); [contradiction|].
    destruct (decide (attrs !! "val" = Some "in_r")); [contradiction|].
    reflexivity.
Qed.

Lemma wrapper_decoding_witness :
  let num n := mkElement "int" ∅ (Some n) None [] in
  _to_value (mkElement "option" {[ "val" := "some" ]} None None [num "1"; num "2"])
  = Return (Option (PyInt 1)) ∧
  _to_value (mkElement "union" {[ "val" := "in_r" ]} None None [])
  = Raise IndexError ∧
  _to_value (mkElement "option" {[ "val" := "none" ]} None None [num "1"])
  = Return (Option PyNone) ∧
  _to_value (mkElement "union" ∅ None None [num "1"])
  = Raise (ValueError "Expected in_l or in_r, but got None").
Proof.
  intros num. split; [|split; [|split]].
  - refine (proj1 (wrapper_decoding
        (mkElement "option" {[ "val" := "some" ]} None None [num "1"; num "2"]))
        Option _). vm_compute. reflexivity.
  - refine (proj1 (wrapper_decoding
        (mkElement "union" {[ "val" := "in_r" ]} None None [])) Inr _).
    vm_compute. reflexivity.
  - apply (proj1 (proj2 (wrapper_decoding
        (mkElement "option" {[ "val" := "none" ]} None None [num "1"]))));
      reflexivity.
  - etransitivity.
    + apply (proj2 (proj2 (proj2 (wrapper_decoding
        (mkElement "union" ∅ None None [num "1"])))));
        [reflexivity | discriminate | discriminate].
    + vm_compute. reflexivity.
Defined.

(** ** [_to_response]: what it raises and what it never returns *)

(** X6.  [_to_response] refuses a node that is not tagged [value] (the
    assertion fails); with [val="good"] it raises an [IndexError] on a
    node without children and otherwise whatever the decoding of the
    first child raises; with [val="fail"] it raises what [int] raises on
    [loc_s], or else on [loc_e], instead of returning a failure.  What it
    returns is never a timeout, and a success carries no message yet. *)
Theorem _to_response_outcomes (xml : Element) :
  (tag xml ≠ "value" → _to_response xml = Raise AssertionError) ∧
  (tag xml = "value" → attrib xml !! "val" = Some "good" →
   match children xml with
   | [] => _to_response xml = Raise IndexError
   | c :: _ => ∀ e, _to_value c = Raise e → _to_response xml = Raise e
   end) ∧
  (tag xml = "value" → attrib xml !! "val" = Some "fail" →
   ∀ e,
     (∃ t, attrib xml !! "loc_s" = Some t ∧ int_of_str t = Raise e) ∨
     ((∀ t, attrib xml !! "loc_s" = Some t → ∃ n, int_of_str t = Return n) ∧
      ∃ t, attrib xml !! "loc_e" = Some t ∧ int_of_str t = Raise e) →
     _to_response xml = Raise e) ∧
  (∀ r, _to_response xml = Return r →
     match r with
     | Ok _ msg => msg = ""
     | Err _ _ timed_out => timed_out = false
     end).
Proof.
  unfold _to_response. split; [|split; [|split]].
  - intros Ht. destruct (decide (tag xml = "value")); [contradiction|reflexivity].
  - intros Ht Hv. rewrite (decide_tag_value _ _ _ _ Ht), Hv. simpl.
    destruct (children xml) as [|c cs]; [reflexivity|].
    intros e He. rewrite He. reflexivity.
  - intros Ht Hv e H. rewrite (decide_tag_value _ _ _ _ Ht), Hv. simpl.
    destruct H as [(t & Hs & He) | (Hs & t & Hl & He)].
    + rewrite Hs. simpl. rewrite He. reflexivity.
    + destruct (attrib xml !! "loc_s") as [ts|]; simpl.
      * destruct (Hs ts eq_refl) as (n & ->). rewrite Hl. simpl. rewrite He.
        reflexivity.
      * rewrite Hl. simpl. rewrite He. reflexivity.
  - intros r H. destruct (decide (tag xml = "value")); [|discriminate H].
    destruct (decide (attrib xml !! "val" = Some "good")).
    + destruct (children xml) as [|c cs]; [discriminate H|].
      destruct (_to_value c); [|discriminate H]. injection H as <-. reflexivity.
    + destruct (decide (attrib xml !! "val" = Some "fail")); [|discriminate H].
      destruct (from_option int_of_str (Return (-1)) (attrib xml !! "loc_s"));
        [|discriminate H].
      destruct (from_option int_of_str (Return (-1)) (attrib xml !! "loc_e"));
        [|discriminate H].
      injection H as <-. reflexivity.
Qed.

Lemma _to_response_outcomes_witness :
  _to_response (mkElement "message" {[ "val" := "good" ]} None None [])
  = Raise AssertionError ∧
  _to_response (mkElement "value" {[ "val" := "good" ]} None None [])
  = Raise IndexError ∧
  _to_response (mkElement "value" (<[ "loc_s" := "3" ]> (<[ "loc_e" := "e" ]>
                                     {[ "val" := "fail" ]})) (Some "bad") None [])
  = Raise (ValueError "invalid literal for int() with base 10: 'e'").
Proof.
  split; [|split].
  - apply (proj1 (_to_response_outcomes
             (mkElement "message" {[ "val" := "good" ]} None None []))).
    simpl. discriminate.
  - apply (proj1 (proj2 (_to_response_outcomes
             (mkElement "value" {[ "val" := "good" ]} None None []))));
      reflexivity.
  - apply (proj1 (proj2 (proj2 (_to_response_outcomes
             (mkElement "value" (<[ "loc_s" := "3" ]> (<[ "loc_e" := "e" ]>
                {[ "val" := "fail" ]})) (Some "bad") None [])))));
      [reflexivity | reflexivity |].
    right. split.
    + intros t H. vm_compute in H. injection H as <-. eexists. reflexivity.
    + eexists. split; [vm_compute|]; reflexivity.
Defined.

(** ** The encoder: payloads that are lists, and injectivity *)

Lemma forallb_marshallable_roundtrip (l : list value) :
  forallb marshallable l = true →
  ∃ ys, mapM _from_value l = Return ys ∧ mapM _to_value ys = Return l.
Proof.
  intros H. apply mapM_roundtrip.
  induction l as [|x l IH]; [constructor|].
  simpl in H. apply andb_true_iff in H as [Hx Hl].
  constructor; [apply marshal_roundtrip, Hx | apply IH, Hl].
Qed.

(** X7.  [Option], [Inl] and [Inr] around a list do not keep the list:
    [_build_xml] makes each element a child of the [option] or [union]
    node, and decoding reads the first child only, so a non-empty list of
    values that marshal comes back as its first element.  Around an empty
    list, and for [Inl] and [Inr] around [None], the node has no child:
    encoding succeeds and decoding the result raises an [IndexError]. *)
Theorem list_payload_spread (C : value → value) :
  C = Option ∨ C = Inl ∨ C = Inr →
  (∀ (x : value) (l : list value),
     forallb marshallable (x :: l) = true →
     ∃ xml, _from_value (C (PyList (x :: l))) = Return xml ∧
            length (children xml) = S (length l) ∧
            _to_value xml = Return (C x)) ∧
  (∃ xml, _from_value (C (PyList [])) = Return xml ∧ children xml = [] ∧
          _to_value xml = Raise IndexError) ∧
  (C ≠ Option →
   ∃ xml, _from_value (C PyNone) = Return xml ∧ children xml = [] ∧
          _to_value xml = Raise IndexError).
Proof.
  intros HC. split; [|split].
  - intros x l Hm.
    destruct (forallb_marshallable_roundtrip _ Hm) as (ys & Henc & Hdec).
    pose proof (mapM_length _ _ _ Henc) as Hlen.
    destruct ys as [|y ys]; [discriminate Hlen|].
    rewrite mapM_cons in Hdec. apply bind_inv in Hdec as (x' & Hy & Hdec).
    apply bind_inv in Hdec as (l' & _ & Hdec). injection Hdec as -> ->.
    destruct HC as [-> | [-> | ->]].
    + exists (new_Element "option" (attribs_of (Some "some")) (y :: ys)).
      split; [|split; [exact Hlen | rewrite _to_value_some, Hy; reflexivity]].
      change (_from_value (Option (PyList (x :: l))))
        with (children ← mapM _from_value (x :: l);
              Return (new_Element "option" (attribs_of (Some "some")) children)).
      rewrite Henc. reflexivity.
    + exists (new_Element "union" (attribs_of (Some "in_l")) (y :: ys)).
      split; [|split; [exact Hlen | rewrite _to_value_in_l, Hy; reflexivity]].
      change (_from_value (Inl (PyList (x :: l))))
        with (children ← mapM _from_value (x :: l);
              Return (new_Element "union" (attribs_of (Some "in_l")) children)).
      rewrite Henc. reflexivity.
    + exists (new_Element "union" (attribs_of (Some "in_r")) (y :: ys)).
      split; [|split; [exact Hlen | rewrite _to_value_in_r, Hy; reflexivity]].
      change (_from_value (Inr (PyList (x :: l))))
        with (children ← mapM _from_value (x :: l);
              Return (new_Element "union" (attribs_of (Some "in_r")) children)).
      rewrite Henc. reflexivity.
  - destruct HC as [-> | [-> | ->]]; eexists;
      (split; [reflexivity|]); split; reflexivity.
  - intros Hn. destruct HC as [-> | [-> | ->]]; [congruence|..]; eexists;
      (split; [reflexivity|]); split; reflexivity.
Qed.

Lemma list_payload_spread_witness :
  (∃ xml, _from_value (Inr (PyList [PyStr "a"; PyStr "b"; PyStr "c"])) = Return xml ∧
          length (children xml) = 3%nat ∧
          _to_value xml = Return (Inr (PyStr "a"))) ∧
  (∃ xml, _from_value (Option (PyList [])) = Return xml ∧ children xml = [] ∧
          _to_value xml = Raise IndexError) ∧
  (∃ xml, _from_value (Inl PyNone) = Return xml ∧ children xml = [] ∧
          _to_value xml = Raise IndexError).
Proof.
  split; [|split].
  - apply (proj1 (list_payload_spread Inr (or_intror (or_intror eq_refl)))
             (PyStr "a") [PyStr "b"; PyStr "c"]). reflexivity.
  - apply (list_payload_spread Option (or_introl eq_refl)).
  - apply (list_payload_spread Inl (or_intror (or_introl eq_refl))).
    intros H. apply (f_equal (fun f => f PyNone)) in H. discriminate H.
Defined.

(** X8.  On the values that marshal the encoder is injective: two of
    them with the same tree are the same value. *)
Theorem _from_value_injective (v1 v2 : value) :
  marshallable v1 = true → marshallable v2 = true →
  _from_value v1 = _from_value v2 → v1 = v2.
Proof.
  intros H1 H2 He.
  apply marshal_roundtrip in H1. apply marshal_roundtrip in H2.
  rewrite He, H2 in H1. injection H1 as ->. reflexivity.
Qed.

Lemma _from_value_injective_witness :
  Option (StateId 3) = Option (StateId 3) ∧
  _from_value (PyStr "1") ≠ _from_value (PyInt 1).
Proof.
  split.
  - apply (_from_value_injective (Option (StateId 3)) (Option (StateId 3)));
      reflexivity.
  - intros H.
    apply (_from_value_injective (PyStr "1") (PyInt 1) eq_refl eq_refl) in H.
    discriminate H.
Defined.

(** ** The trees of the encoder *)

Lemma is_decimal_str_of_int (n : Z) : is_decimal (Some (str_of_int n)) = true.
Proof.
  unfold is_decimal. rewrite int_of_str_str_of_int.
  apply bool_decide_eq_true. reflexivity.
Qed.

Lemma wire_tree_node (tg : string) (attrs : gmap string string)
    (tx tl : option string) (cs : list Element) :
  wire_node (mkElement tg attrs tx tl cs) = true →
  Forall (fun c => wire_tree c = true) cs →
  wire_tree (mkElement tg attrs tx tl cs) = true.
Proof.
  intros Hn Hcs. simpl wire_tree. rewrite Hn. simpl.
  apply forallb_forall. intros c Hc. rewrite List.Forall_forall in Hcs. auto.
Qed.

Lemma wire_node_state_id (n : Z) :
  wire_node (childless "state_id" (Some (str_of_int n))) = true.
Proof.
  unfold wire_node.
  cbn [childless new_Element attribs_of tag attrib text tail children].
  rewrite delete_singleton_eq, lookup_singleton_eq, is_decimal_str_of_int.
  reflexivity.
Qed.

Lemma wire_node_int (n : Z) :
  wire_node (set_text (childless "int" None) (str_of_int n)) = true.
Proof.
  unfold wire_node.
  cbn [set_text childless new_Element attribs_of tag attrib text tail children].
  rewrite is_decimal_str_of_int. reflexivity.
Qed.

Lemma encoded_children_wire (l : list value) (cs : list Element) :
  Forall emits_wire l →
  mapM _from_value l = Return cs → Forall (fun c => wire_tree c = true) cs.
Proof.
  intros IH H. apply mapM_Forall2 in H.
  induction H as [|v c l cs Hvc _ IHl]; constructor;
    apply Forall_cons in IH as [Hv Hl]; auto.
Qed.

Lemma _build_xml_wire (tg : string) (val : option string) (v : value)
    (xml : Element) :
  (∀ cs, wire_node (new_Element tg (attribs_of val) cs) = true) →
  emits_wire v → (∀ l, v = PyList l → Forall emits_wire l) →
  _build_xml _from_value tg val v = Return xml → wire_tree xml = true.
Proof.
  intros Hn IH IHl H. unfold _build_xml in H.
  apply bind_inv in H as (cs & Hcs & H). injection H as <-.
  apply wire_tree_node; [apply Hn|].
  destruct v;
    try (apply bind_inv in Hcs as (c & Hc & Hcs); injection Hcs as <-;
         repeat constructor; apply IH, Hc).
  - injection Hcs as <-. constructor.
  - eapply encoded_children_wire; [apply IHl; reflexivity | exact Hcs].
Qed.

Lemma _from_value_wire_strong (v : value) :
  emits_wire v ∧ (∀ l, v = PyList l → Forall emits_wire l).
Proof.
  induction v as [| b | n | s | l IH | l IH | v IH | v IH | v IH
                 | | | | | | n | | |] using value_ind;
    (split; [intros xml H | try discriminate]);
    try discriminate H.
  - injection H as <-. destruct b; reflexivity.
  - injection H as <-. apply wire_tree_node; [apply wire_node_int | constructor].
  - injection H as <-. reflexivity.
  - change (_from_value (PyList l))
      with (children ← mapM _from_value l; Return (new_Element "list" ∅ children))
      in H.
    apply bind_inv in H as (cs & Hcs & H). injection H as <-.
    apply wire_tree_node; [reflexivity|].
    eapply encoded_children_wire; [|exact Hcs].
    eapply List.Forall_impl; [|exact IH]. intros a Ha. apply Ha.
  - intros l' [= <-]. eapply List.Forall_impl; [|exact IH]. intros a Ha. apply Ha.
  - destruct l as [|a [|b l]]; try discriminate H.
    + injection H as <-. reflexivity.
    + change (_from_value (PyTuple (a :: b :: l)))
        with (c0 ← _from_value a; c1 ← _from_value b;
              Return (new_Element "pair" ∅ [c0; c1])) in H.
      apply bind_inv in H as (ca & Hca & H). apply bind_inv in H as (cb & Hcb & H).
      injection H as <-.
      apply Forall_cons in IH as [[IHa _] IH]. apply Forall_cons in IH as [[IHb _] _].
      apply wire_tree_node; [reflexivity|]. repeat constructor; auto.
  - destruct IH as [IH IHl].
    assert (v = PyNone ∨ v ≠ PyNone) as [-> | Hv]
      by (destruct v; (left; reflexivity) || (right; discriminate)).
    + injection H as <-. reflexivity.
    + replace (_from_value (Option v))
        with (_build_xml _from_value "option" (Some "some") v) in H
        by (destruct v; congruence || reflexivity).
      eapply _build_xml_wire; [| exact IH | exact IHl | exact H].
      intros cs. reflexivity.
  - destruct IH as [IH IHl].
    eapply _build_xml_wire; [| exact IH | exact IHl | exact H].
    intros cs. reflexivity.
  - destruct IH as [IH IHl].
    eapply _build_xml_wire; [| exact IH | exact IHl | exact H].
    intros cs. reflexivity.
  - injection H as <-.
    apply wire_tree_node; [apply wire_node_state_id | constructor].
Qed.

(** X9.  Whatever the encoder returns is a tree of the wire format at
    every node: one of the nine tags [unit], [bool], [int], [string],
    [list], [pair], [option], [union], [state_id]; no text after any
    element; no attribute but [val], which is there on [bool] (true or
    false), [option] (none, without children, or some), [union] (in_l or
    in_r) and [state_id] (an integer as [str] prints it) and nowhere
    else; text on [int] (an integer as [str] prints it) and [string]
    nodes only, which have no children, like [unit], [bool] and
    [state_id]; two children under [pair]. *)
Theorem _from_value_wire_tree (v : value) (xml : Element) :
  _from_value v = Return xml → wire_tree xml = true.
Proof. apply _from_value_wire_strong. Qed.

Lemma _from_value_wire_tree_witness :
  ∃ xml,
    _from_value (PyList [Option (PyList [StateId 3; PyInt (-4)]);
                         PyTuple [Inl PyNone; PyStr "x"; PyBool true]])
    = Return xml ∧ wire_tree xml = true.
Proof.
  eexists. split; [reflexivity|].
  apply (_from_value_wire_tree
           (PyList [Option (PyList [StateId 3; PyInt (-4)]);
                    PyTuple [Inl PyNone; PyStr "x"; PyBool true]])).
  reflexivity.
Defined.

(** ** The framer on a whole forest *)

(** X10.  When the buffer parses and every [value] and [message] element
    among the children of the root decodes, [raw_response] answers with
    the response of the last [value] element, to the message of which it
    appends the texts of all the [message] elements of the buffer, before
    or after it, in order and joined by blank lines (for a failure, right
    after the error text); elements with any other tag are passed over;
    without a [value] element the answer is [None]. *)
Theorem raw_response_forest (fromstring : string → option Element)
    (data : string) (root : Element) :
  fromstring ("<coqtoproot>" ++ _unescape data ++ "</coqtoproot>") = Some root →
  Forall decodes (children root) →
  raw_response fromstring data
  = Return (match last (value_responses (children root)) with
            | Some r =>
                Some (add_msg r (sjoin (newline ++ newline)
                                       (message_texts (children root))))
            | None => None
            end).
Proof.
  intros Hp Hd. unfold raw_response.
  rewrite Hp, (for_each_decodes _ _ _ Hd), bind_Return.
  destruct (last (value_responses (children root))); [|reflexivity].
  simpl app. rewrite str_join_strs. reflexivity.
Qed.

Lemma raw_response_forest_witness :
  raw_response ET_fromstring
    ("<value val='good'><int>1</int></value><message><richpp>one</richpp></message>"
     ++ "<feedback/><value val='fail' loc_s='2'>Error.</value>"
     ++ "<message><richpp>two</richpp></message>")
  = Return (Some (Err ("Error.one" ++ newline ++ newline ++ "two") (2, -1) false)).
Proof.
  lazymatch goal with
  | |- raw_response _ ?d = _ =>
      etransitivity;
      [ eapply (raw_response_forest ET_fromstring d _ ltac:(vm_compute; reflexivity))
      | vm_compute; reflexivity ]
  end.
  repeat (apply List.Forall_cons;
          [split; intros H; vm_compute in H; try discriminate H;
           eexists; vm_compute; reflexivity|]).
  constructor.
Defined.

(** X11.  The elements are handled in document order and the first
    [value] or [message] element that fails to decode ends the call with
    its exception, even when a [value] element that decodes comes before
    or after it. *)
Theorem raw_response_first_error (fromstring : string → option Element)
    (data : string) (root c : Element) (l1 l2 : list Element) (e : exn) :
  fromstring ("<coqtoproot>" ++ _unescape data ++ "</coqtoproot>") = Some root →
  children root = (l1 ++ c :: l2)%list →
  Forall decodes l1 →
  (tag c = "value" ∧ _to_response c = Raise e) ∨
  (tag c = "message" ∧ _to_value c = Raise e) →
  raw_response fromstring data = Raise e.
Proof.
  intros Hp Hc Hl He. unfold raw_response.
  rewrite Hp, Hc, for_each_app, (for_each_decodes _ _ _ Hl), bind_Return.
  rewrite for_each_cons. unfold raw_response_step.
  destruct He as [[Ht He] | [Ht He]]; rewrite Ht, He; reflexivity.
Qed.

Lemma raw_response_first_error_witness :
  raw_response ET_fromstring
    ("<value val='good'><unit/></value><message><richpp>m</richpp></message>"
     ++ "<value val='maybe'/><value val='good'><unit/></value>")
  = Raise (ValueError "Expected good or fail, but got maybe").
Proof.
  lazymatch goal with
  | |- raw_response _ ?d = _ =>
      eapply (raw_response_first_error ET_fromstring d _
                (mkElement "value" {[ "val" := "maybe" ]} None None [])
                _ _ _ ltac:(vm_compute; reflexivity))
  end.
  - vm_compute.
    instantiate (1 := [mkElement "value" {[ "val" := "good" ]} None None
                         [mkElement "unit" ∅ None None []]]).
    instantiate (1 := [mkElement "value" {[ "val" := "good" ]} None None
                         [mkElement "unit" ∅ None None []];
                       mkElement "message" ∅ None None
                         [mkElement "richpp" ∅ (Some "m") None []]]).
    vm_compute. reflexivity.
  - repeat (apply List.Forall_cons;
            [split; intros H; vm_compute in H; try discriminate H;
             eexists; vm_compute; reflexivity|]).
    constructor.
  - left. split; vm_compute; reflexivity.
Defined.

(** ** Replacing a marker by a character that is not in it *)

Lemma contains_occurs (p s : string) : contains p s = true → occurs p s.
Proof.
  induction s as [|c s IH]; simpl; intros H.
  - rewrite orb_false_r in H. apply startswith_occurs, H.
  - apply orb_true_iff in H as [H|H]; [apply startswith_occurs, H|].
    apply occurs_tail, IH, H.
Qed.

Lemma replace_from_drop (old new : string) (k : nat) (s : string) :
  replace_from old new k s = replace_from old new 0 (drop_str k s).
Proof.
  revert k; induction s as [|c s IH]; intros [|k]; try reflexivity.
  simpl. apply IH.
Qed.

Lemma replace_from_step (old new : string) (c : ascii) (s : string) :
  replace_from old new 0 (String c s)
  = if startswith old (String c s)
    then new ++ replace_from old new 0 (drop_str (Nat.pred (String.length old)) s)
    else String c (replace_from old new 0 s).
Proof.
  change (replace_from old new 0 (String c s))
    with (if startswith old (String c s)
          then new ++ replace_from old new (Nat.pred (String.length old)) s
          else String c (replace_from old new 0 s)).
  rewrite replace_from_drop. reflexivity.
Qed.

Lemma drop_str_suffix (k : nat) (s : string) : ∃ a, s = a ++ drop_str k s.
Proof.
  revert k; induction s as [|c s IH]; intros [|k]; try (exists ""; reflexivity).
  destruct (IH k) as (a & Ha). exists (String c a). simpl.
  change (String c s = String c (a ++ drop_str k s)). f_equal. exact Ha.
Qed.

Lemma drop_str_length (k : nat) (s : string) :
  (String.length (drop_str k s) ≤ String.length s)%nat.
Proof.
  revert k; induction s as [|c s IH]; intros [|k]; simpl; try lia.
  specialize (IH k). lia.
Qed.

Section Replaced.

Variable old : string.
Variable x : ascii.

(** What [replace] does for a non-empty [old]. *)
Let R : string → string := replace_from old (String x "") 0.

Lemma R_step (c : ascii) (s : string) :
  R (String c s)
  = if startswith old (String c s)
    then String x (R (drop_str (Nat.pred (String.length old)) s))
    else String c (R s).
Proof. unfold R. rewrite replace_from_step. reflexivity. Qed.

(** A run without [x] that starts the result starts the argument, at a
    place where [old] does not start. *)
Lemma startswith_replaced (p t : string) :
  has_char x p = false → startswith p (R t) = true →
  startswith p t = true ∧ (p ≠ "" → startswith old t = false).
Proof.
  revert t; induction p as [|c p IH]; intros t Hx H.
  - split; [reflexivity | congruence].
  - unfold has_char in Hx. simpl in Hx. apply orb_false_iff in Hx as [Hc Hp].
    destruct t as [|d t]; [discriminate H|].
    rewrite R_step in H. destruct (startswith old (String d t)) eqn:Ho.
    + simpl in H. rewrite Ascii.eqb_sym, Hc in H. discriminate H.
    + simpl in H |- *. destruct (Ascii.eqb c d); [|discriminate H].
      split; [apply (IH t Hp H) | reflexivity].
Qed.

(** Where a run occurs in the result. *)
Lemma contains_replaced (p : string) (n : nat) (s : string) :
  (String.length s ≤ n)%nat → contains p (R s) = true →
  ∃ a t, s = a ++ t ∧ startswith p (R t) = true.
Proof.
  revert s; induction n as [|n IH]; intros s Hn H.
  - destruct s; [|simpl in Hn; lia].
    exists "", "". split; [reflexivity|].
    simpl in H. rewrite orb_false_r in H. exact H.
  - destruct s as [|c s].
    + exists "", "". split; [reflexivity|].
      simpl in H. rewrite orb_false_r in H. exact H.
    + simpl in Hn.
      destruct (startswith p (R (String c s))) eqn:Hs;
        [exists "", (String c s); split; [reflexivity | exact Hs]|].
      rewrite R_step in H, Hs.
      destruct (startswith old (String c s)).
      * simpl in H. simpl in Hs. rewrite Hs in H. simpl in H.
        pose proof (drop_str_length (Nat.pred (String.length old)) s) as Hl.
        destruct (IH (drop_str (Nat.pred (String.length old)) s) ltac:(lia) H)
          as (a & t & Hd & Ht).
        destruct (drop_str_suffix (Nat.pred (String.length old)) s) as (b & Hb).
        exists (String c (b ++ a)), t. split; [|exact Ht].
        rewrite Hb at 1. rewrite Hd.
        change (String c (b ++ a ++ t) = String c ((b ++ a) ++ t)).
        rewrite append_assoc. reflexivity.
      * simpl in H. simpl in Hs. rewrite Hs in H. simpl in H.
        destruct (IH s ltac:(lia) H) as (a & t & -> & Ht).
        exists (String c a), t. split; [reflexivity | exact Ht].
Qed.

Lemma occurs_app (p a t : string) : occurs p t → occurs p (a ++ t).
Proof.
  induction a as [|c a IH]; intros H; [exact H|].
  change (occurs p (String c (a ++ t))). apply occurs_tail, IH, H.
Qed.

(** A run without [x] that is not in the argument is not in the result. *)
Lemma replaced_absent (p s : string) :
  has_char x p = false → ¬ occurs p s → ¬ occurs p (R s).
Proof.
  intros Hx Hp Ho. apply occurs_contains in Ho.
  destruct (contains_replaced p _ s (le_n _) Ho) as (a & t & -> & Ht).
  apply (startswith_replaced _ _ Hx) in Ht as [Ht _].
  apply Hp, occurs_app, startswith_occurs, Ht.
Qed.

(** [old] itself is nowhere in the result. *)
Lemma replaced_old_absent (s : string) :
  old ≠ "" → has_char x old = false → ¬ occurs old (R s).
Proof.
  intros Hne Hx Ho. apply occurs_contains in Ho.
  destruct (contains_replaced old _ s (le_n _) Ho) as (a & t & -> & Ht).
  apply (startswith_replaced _ _ Hx) in Ht as [Ht Hf].
  rewrite (Hf Hne) in Ht. discriminate Ht.
Qed.

End Replaced.

Lemma replace_char_absent (old : string) (x : ascii) (p s : string) :
  old ≠ "" → has_char x p = false → ¬ occurs p s →
  ¬ occurs p (replace old (String x "") s).
Proof.
  intros Hne Hx Hp. unfold replace. destruct old; [congruence|].
  apply replaced_absent; assumption.
Qed.

Lemma replace_char_old_absent (old : string) (x : ascii) (s : string) :
  old ≠ "" → has_char x old = false →
  ¬ occurs old (replace old (String x "") s).
Proof.
  intros Hne Hx. unfold replace. destruct old; [congruence|].
  apply replaced_old_absent; [discriminate | exact Hx].
Qed.

Lemma _unescape_unfold (s : string) :
  _unescape s
  = replace "&#41;" ")" (replace "&#40;" "("
      (replace "&apos;" "'" (replace "&nbsp;" " " s))).
Proof. reflexivity. Qed.

Lemma _unescape_clean (cmd : string) :
  ¬ occurs "&nbsp;" (_unescape cmd) ∧ ¬ occurs "&apos;" (_unescape cmd) ∧
  ¬ occurs "&#40;" (_unescape cmd) ∧ ¬ occurs "&#41;" (_unescape cmd).
Proof.
  rewrite _unescape_unfold.
  set (s1 := replace "&nbsp;" " " cmd).
  set (s2 := replace "&apos;" "'" s1).
  set (s3 := replace "&#40;" "(" s2).
  assert (¬ occurs "&nbsp;" s1) as A1
    by (apply replace_char_old_absent; [discriminate | reflexivity]).
  assert (¬ occurs "&nbsp;" s2) as A2
    by (apply replace_char_absent; [discriminate | reflexivity | exact A1]).
  assert (¬ occurs "&apos;" s2) as B2
    by (apply replace_char_old_absent; [discriminate | reflexivity]).
  assert (¬ occurs "&nbsp;" s3) as A3
    by (apply replace_char_absent; [discriminate | reflexivity | exact A2]).
  assert (¬ occurs "&apos;" s3) as B3
    by (apply replace_char_absent; [discriminate | reflexivity | exact B2]).
  assert (¬ occurs "&#40;" s3) as C3
    by (apply replace_char_old_absent; [discriminate | reflexivity]).
  split; [|split; [|split]].
  - apply replace_char_absent; [discriminate | reflexivity | exact A3].
  - apply replace_char_absent; [discriminate | reflexivity | exact B3].
  - apply replace_char_absent; [discriminate | reflexivity | exact C3].
  - apply replace_char_old_absent; [discriminate | reflexivity].
Qed.

Lemma _unescape_twice (cmd : string) : _unescape (_unescape cmd) = _unescape cmd.
Proof.
  destruct (_unescape_clean cmd) as (H1 & H2 & H3 & H4).
  rewrite (_unescape_unfold (_unescape cmd)).
  rewrite (replace_absent "&nbsp;" _ _) by (discriminate || assumption).
  rewrite (replace_absent "&apos;" _ _) by (discriminate || assumption).
  rewrite (replace_absent "&#40;" _ _) by (discriminate || assumption).
  apply replace_absent; [discriminate | assumption].
Qed.

(** X12.  What [_unescape] returns holds none of the four markers any
    more (no replacement can build one, since the characters put in are
    in none of them), so unescaping twice is unescaping once. *)
Theorem _unescape_idempotent (cmd : string) :
  ¬ occurs "&nbsp;" (_unescape cmd) ∧ ¬ occurs "&apos;" (_unescape cmd) ∧
  ¬ occurs "&#40;" (_unescape cmd) ∧ ¬ occurs "&#41;" (_unescape cmd) ∧
  _unescape (_unescape cmd) = _unescape cmd.
Proof.
  destruct (_unescape_clean cmd) as (H1 & H2 & H3 & H4).
  repeat (split; [assumption|]). apply _unescape_twice.
Qed.

(** X18.  Resolving the escapes of a buffer before handing it to
    [raw_response] changes nothing: the framer on the unescaped buffer
    answers as on the buffer itself, whatever the parser. *)
Theorem raw_response_unescaped (fromstring : string → option Element)
    (data : string) :
  raw_response fromstring (_unescape data) = raw_response fromstring data.
Proof. unfold raw_response. rewrite _unescape_twice. reflexivity. Qed.

Lemma versions_Raise (version : string) (e : exn) :
  versions version = Raise e → e = AttributeError.
Proof.
  unfold versions.
  generalize (split "." (replace "pl" "." version)). intros l H.
  destruct (mapM leading_int l) as [vs|e'] eqn:Hm; [discriminate H|].
  injection H as <-. revert e' Hm.
  induction l as [|c l IH]; intros e Hm; [discriminate Hm|].
  rewrite mapM_cons in Hm. destruct (leading_digits c) eqn:E.
  - rewrite (leading_int_no_digit _ E) in Hm. injection Hm as <-. reflexivity.
  - rewrite leading_int_digits in Hm by (rewrite E; discriminate).
    rewrite bind_Return in Hm.
    destruct (mapM leading_int l) as [|e1]; [discriminate Hm|].
    injection Hm as <-. apply (IH e1 eq_refl).
Qed.

(** X13.  The [pl] notation and the dotted notation of a version are one
    to the dispatcher: with every [pl] of a version string replaced by a
    dot, the tuple is the same, and so is the answer, but for the string
    that the error of an unsupported version names. *)
Theorem versions_pl_is_dot (version : string) :
  let dotted := replace "pl" "." version in
  versions dotted = versions version ∧
  (XmlInterface dotted = Return XmlInterface86 ↔
   XmlInterface version = Return XmlInterface86) ∧
  (XmlInterface dotted = Raise AttributeError ↔
   XmlInterface version = Raise AttributeError) ∧
  (XmlInterface dotted = Raise (ValueError ("Invalid version: " ++ dotted)) ↔
   XmlInterface version = Raise (ValueError ("Invalid version: " ++ version))).
Proof.
  intros dotted.
  assert (versions dotted = versions version) as Hv.
  { unfold versions, dotted. rewrite replace_absent; [reflexivity | discriminate |].
    apply replace_char_old_absent; [discriminate | reflexivity]. }
  split; [exact Hv|]. unfold XmlInterface. rewrite Hv.
  destruct (versions version) as [t|e] eqn:Ht.
  - rewrite !bind_Return.
    destruct (tuple_le [8; 6; 0] t && tuple_lt t [8; 7; 0]).
    + split; [split; reflexivity|]. split; split; discriminate.
    + split; [split; discriminate|]. split; [split; discriminate|].
      split; reflexivity.
  - apply versions_Raise in Ht as ->. simpl.
    split; [split; discriminate|]. split; [split; reflexivity|].
    split; discriminate.
Qed.

Lemma leading_digits_all (comps : list string) :
  forallb (fun c => negb (String.eqb (leading_digits c) "")) comps = true →
  Forall (fun c => leading_digits c ≠ "") comps.
Proof.
  intros H. apply List.Forall_forall. intros c Hc.
  rewrite forallb_forall in H. specialize (H c Hc).
  apply negb_true_iff, String.eqb_neq in H. exact H.
Qed.

Lemma leading_digits_some (comps : list string) :
  existsb (fun c => String.eqb (leading_digits c) "") comps = true →
  Exists (fun c => leading_digits c = "") comps.
Proof.
  intros H. apply existsb_exists in H as (c & Hc & H).
  apply List.Exists_exists. exists c. split; [exact Hc|].
  apply String.eqb_eq, H.
Qed.

(** X14.  The dispatcher looks at the first two components only.  With
    the version cut at its dots ([pl] counting as a dot): if some
    component does not start with a digit, an [AttributeError] is raised;
    otherwise the 8.6 implementation is returned exactly when the first
    component stands for 8 and the second for 6, whatever follows the
    digits and however many components there are, and any other version
    raises the error that names it. *)
Theorem XmlInterface_outcome (version : string) :
  let comps := split "." (replace "pl" "." version) in
  (Exists (fun c => leading_digits c = "") comps →
   XmlInterface version = Raise AttributeError) ∧
  (Forall (fun c => leading_digits c ≠ "") comps →
   (component 0 comps = 8 ∧ component 1 comps = 6 →
    XmlInterface version = Return XmlInterface86) ∧
   (¬ (component 0 comps = 8 ∧ component 1 comps = 6) →
    XmlInterface version = Raise (ValueError ("Invalid version: " ++ version)))).
Proof.
  intros comps. split.
  - intros H. unfold XmlInterface, versions. fold comps.
    rewrite (mapM_leading_int_fails _ H). reflexivity.
  - intros H.
    assert (versions version
            = Return (map (fun c => decimal_value (leading_digits c)) comps
                      ++ replicate (3 - length comps) 0)%list) as Hv.
    { unfold versions. fold comps. rewrite (mapM_leading_int _ H). simpl.
      rewrite length_map. reflexivity. }
    pose proof (XmlInterface_accepts _ _ Hv) as Hacc.
    assert ((∃ rest, (map (fun c => decimal_value (leading_digits c)) comps
                      ++ replicate (3 - length comps) 0)%list = 8 :: 6 :: rest)
            ↔ component 0 comps = 8 ∧ component 1 comps = 6) as Hc.
    { unfold component. destruct comps as [|c0 [|c1 rest]]; simpl.
      - split; [intros (r & [= ? ?]); lia | intros [? ?]; lia].
      - split; [intros (r & [= ? ?]); lia | intros [? ?]; lia].
      - split; [intros (r & [= -> -> _]); tauto | intros [-> ->]; eauto]. }
    split.
    + intros Hin. apply Hacc, Hc, Hin.
    + intros Hout. unfold XmlInterface in *. rewrite Hv, bind_Return in *.
      destruct (tuple_le _ _ && tuple_lt _ _); [|reflexivity].
      exfalso. apply Hout, Hc, Hacc. reflexivity.
Qed.

Lemma XmlInterface_outcome_witness :
  XmlInterface "8.6pl2+dev.17.x" = Raise AttributeError ∧
  XmlInterface "8.6rc1.2beta.0003" = Return XmlInterface86 ∧
  XmlInterface "8" = Raise (ValueError "Invalid version: 8").
Proof.
  split; [|split].
  - apply (proj1 (XmlInterface_outcome "8.6pl2+dev.17.x")).
    apply leading_digits_some. vm_compute. reflexivity.
  - apply (proj2 (XmlInterface_outcome "8.6rc1.2beta.0003")).
    + apply leading_digits_all. vm_compute. reflexivity.
    + split; vm_compute; reflexivity.
  - apply (proj2 (XmlInterface_outcome "8")).
    + apply leading_digits_all. vm_compute. reflexivity.
    + intros [_ H]. vm_compute in H. discriminate H.
Defined.

(** ** The other commands *)

Lemma call_single (name : string) (v : value) :
  marshallable v = true → v ≠ PyNone → (∀ l, v ≠ PyList l) →
  ∃ call arg : Element,
    _build_xml _from_value "call" (Some name) v = Return call ∧
    tag call = "call" ∧ attrib call !! "val" = Some name ∧
    children call = [arg] ∧ _to_value arg = Return v.
Proof.
  intros Hm Hn Hl. apply marshal_roundtrip in Hm.
  apply bind_inv in Hm as (arg & Henc & Hdec).
  exists (new_Element "call" (attribs_of (Some name)) [arg]), arg.
  split; [apply _build_xml_single; assumption|].
  split; [reflexivity|]. split; [apply lookup_singleton_eq|].
  split; [reflexivity | exact Hdec].
Qed.

(** X15.  [query] and [edit_at] serialize a [call] node whose [val] is
    the name of the call and whose only child decodes to the argument:
    the pair [(cmd, state)] for [query], for any command and state that
    marshal, and the state itself for [edit_at], for a state that marshals
    and is not a list.  A state that is [None] gives an [Edit_at] call
    without argument rather than an error, and a state that a command
    cannot encode makes it raise what [_from_value] raises. *)
Theorem command_arguments :
  (∀ cmd state : value,
     marshallable cmd = true → marshallable state = true →
     ∃ call arg : Element,
       query cmd state = Return (tostring call) ∧
       tag call = "call" ∧ attrib call !! "val" = Some "Query" ∧
       children call = [arg] ∧ _to_value arg = Return (PyTuple [cmd; state])) ∧
  (∀ state : value,
     marshallable state = true → (∀ l, state ≠ PyList l) →
     ∃ call arg : Element,
       edit_at state = Return (tostring call) ∧
       tag call = "call" ∧ attrib call !! "val" = Some "Edit_at" ∧
       children call = [arg] ∧ _to_value arg = Return state) ∧
  edit_at PyNone = Return ("<call val=" ++ dquote ++ "Edit_at" ++ dquote ++ " />") ∧
  (∀ (cmd state : value) (e : exn),
     marshallable cmd = true → _from_value state = Raise e →
     query cmd state = Raise e ∧ add cmd state = Raise e).
Proof.
  split; [|split; [|split]].
  - intros cmd state Hc Hs.
    destruct (call_single "Query" (PyTuple [cmd; state]))
      as (call & arg & Hb & H); [|discriminate|discriminate|].
    { change (marshallable (PyTuple [cmd; state]))
        with (marshallable cmd && marshallable state).
      rewrite Hc, Hs. reflexivity. }
    exists call, arg. split; [|exact H]. unfold query. rewrite Hb. reflexivity.
  - intros state Hs Hl.
    destruct (call_single "Edit_at" state) as (call & arg & Hb & H);
      [exact Hs | | exact Hl |].
    { intros ->. discriminate Hs. }
    exists call, arg. split; [|exact H]. unfold edit_at. rewrite Hb. reflexivity.
  - vm_compute. reflexivity.
  - intros cmd state e Hc He. apply marshal_roundtrip in Hc.
    apply bind_inv in Hc as (c & Hc & _).
    split.
    + unfold query, _build_xml.
      change (_from_value (PyTuple [cmd; state]))
        with (c0 ← _from_value cmd; c1 ← _from_value state;
              Return (new_Element "pair" ∅ [c0; c1])).
      rewrite Hc, He. reflexivity.
    + unfold add, _build_xml.
      change (_from_value (PyTuple [PyTuple [cmd; PyInt (-1)];
                                    PyTuple [state; PyBool true]]))
        with (c0 ← (c0 ← _from_value cmd; c1 ← _from_value (PyInt (-1));
                    Return (new_Element "pair" ∅ [c0; c1]));
              c1 ← (c0 ← _from_value state; c1 ← _from_value (PyBool true);
                    Return (new_Element "pair" ∅ [c0; c1]));
              Return (new_Element "pair" ∅ [c0; c1])).
      rewrite Hc, He. reflexivity.
Qed.

Lemma command_arguments_witness :
  (∃ call arg : Element,
     query (PyStr "Check <nat>.") (StateId 4) = Return (tostring call) ∧
     tag call = "call" ∧ attrib call !! "val" = Some "Query" ∧
     children call = [arg] ∧
     _to_value arg = Return (PyTuple [PyStr "Check <nat>."; StateId 4])) ∧
  (∃ call arg : Element,
     edit_at (StateId 9) = Return (tostring call) ∧
     tag call = "call" ∧ attrib call !! "val" = Some "Edit_at" ∧
     children call = [arg] ∧ _to_value arg = Return (StateId 9)) ∧
  query (PyStr "Print nat.") PyNone
  = Raise (ValueError "Expected , but got <class 'NoneType'>").
Proof.
  split; [|split].
  - apply (proj1 command_arguments); reflexivity.
  - apply (proj1 (proj2 command_arguments)); [reflexivity | discriminate].
  - apply (proj2 (proj2 (proj2 command_arguments)) (PyStr "Print nat.") PyNone);
      reflexivity.
Defined.

(** ** The domain of the encoder *)

Lemma mapM_domain (l : list value) :
  Forall encoder_domain l →
  (forallb encodable l = true → ∃ ys, mapM _from_value l = Return ys) ∧
  (forallb encodable l = false →
   ∃ e, mapM _from_value l = Raise e ∧ encoder_error e).
Proof.
  induction 1 as [|x l [Hx Hx'] _ [IH IH']]; cbn [forallb].
  - split; [eexists; reflexivity | discriminate].
  - rewrite mapM_cons. destruct (encodable x).
    + destruct (Hx eq_refl) as (y & ->). rewrite bind_Return.
      cbn [andb]. split; intros H.
      * destruct (IH H) as (ys & ->). eexists. reflexivity.
      * destruct (IH' H) as (e & -> & He). eexists. split; [reflexivity | exact He].
    + destruct (Hx' eq_refl) as (e & -> & He). simpl.
      split; [discriminate|]. intros _. eexists. split; [reflexivity | exact He].
Qed.

Lemma _build_xml_domain (tg : string) (val : option string) (v : value) :
  encoder_domain v → (∀ l, v = PyList l → Forall encoder_domain l) →
  let ok := match v with PyNone => true | _ => encodable v end in
  (ok = true → ∃ xml, _build_xml _from_value tg val v = Return xml) ∧
  (ok = false →
   ∃ e, _build_xml _from_value tg val v = Raise e ∧ encoder_error e).
Proof.
  intros [Hv Hv'] Hl ok. subst ok. unfold _build_xml.
  destruct v as [| | | |l| | | | | | | | | | | | |]; cbv beta iota;
    try (split; intros H;
         [ destruct (Hv H) as (y & Hy); rewrite Hy; eexists; reflexivity
         | destruct (Hv' H) as (e & Hy & He); rewrite Hy; eexists; split;
           [reflexivity | exact He] ]).
  - split; [eexists; reflexivity | discriminate].
  - destruct (mapM_domain l (Hl l eq_refl)) as [Hm Hm'].
    change (encodable (PyList l)) with (forallb encodable l). split; intros H.
    + destruct (Hm H) as (ys & ->). eexists. reflexivity.
    + destruct (Hm' H) as (e & -> & He). eexists. split; [reflexivity | exact He].
Qed.

Lemma _from_value_domain_strong (v : value) :
  encoder_domain v ∧ (∀ l, v = PyList l → Forall encoder_domain l).
Proof.
  induction v as [| b | n | s | l IH | l IH | v IH | v IH | v IH
                 | | | | | | n | | |] using value_ind;
    (split; [unfold encoder_domain|try discriminate]);
    try (split; [discriminate | intros _; eexists; split;
                 [reflexivity | right; eexists; reflexivity]]);
    try (split; [intros _; eexists; reflexivity | discriminate]).
  - assert (Forall encoder_domain l) as Hl
      by (eapply List.Forall_impl; [|exact IH]; intros a Ha; apply Ha).
    destruct (mapM_domain l Hl) as [Hm Hm'].
    change (_from_value (PyList l))
      with (children ← mapM _from_value l; Return (new_Element "list" ∅ children)).
    change (encodable (PyList l)) with (forallb encodable l). split; intros H.
    + destruct (Hm H) as (ys & ->). eexists. reflexivity.
    + destruct (Hm' H) as (e & -> & He). eexists. split; [reflexivity | exact He].
  - intros l' [= <-]. eapply List.Forall_impl; [|exact IH]. intros a Ha. apply Ha.
  - destruct l as [|a [|b l]].
    + split; [intros _; eexists; reflexivity | discriminate].
    + split; [discriminate|]. intros _. eexists. split; [reflexivity|].
      left. reflexivity.
    + apply Forall_cons in IH as [[[Ha Ha'] _] IH].
      apply Forall_cons in IH as [[[Hb Hb'] _] _].
      change (_from_value (PyTuple (a :: b :: l)))
        with (c0 ← _from_value a; c1 ← _from_value b;
              Return (new_Element "pair" ∅ [c0; c1])).
      change (encodable (PyTuple (a :: b :: l)))
        with (encodable a && encodable b).
      destruct (encodable a).
      * destruct (Ha eq_refl) as (ca & ->). simpl. destruct (encodable b).
        -- destruct (Hb eq_refl) as (cb & ->).
           split; [intros _; eexists; reflexivity | discriminate].
        -- destruct (Hb' eq_refl) as (e & -> & He).
           split; [discriminate|]. intros _. eexists. split; [reflexivity|exact He].
      * destruct (Ha' eq_refl) as (e & -> & He). simpl.
        split; [discriminate|]. intros _. eexists. split; [reflexivity|exact He].
  - destruct IH as [IH IHl].
    assert (v = PyNone ∨ v ≠ PyNone) as [-> | Hv]
      by (destruct v; (left; reflexivity) || (right; discriminate)).
    + split; [intros _; eexists; reflexivity | discriminate].
    + replace (_from_value (Option v))
        with (_build_xml _from_value "option" (Some "some") v)
        by (destruct v; congruence || reflexivity).
      apply (_build_xml_domain "option" (Some "some") v IH IHl).
  - destruct IH as [IH IHl].
    apply (_build_xml_domain "union" (Some "in_l") v IH IHl).
  - destruct IH as [IH IHl].
    apply (_build_xml_domain "union" (Some "in_r") v IH IHl).
Qed.

(** X16.  The encoder returns a tree exactly for the values made of the
    types it dispatches on, one-element tuples excepted, at the places
    it visits: the elements of lists, the first two components of
    tuples, and the payload of [Option], [Inl] and [Inr], where [None]
    is let through.  On every other value it raises, an [IndexError]
    (a one-element tuple came first) or a [ValueError] (a value of
    another type did). *)
Theorem _from_value_domain (v : value) :
  (encodable v = true ↔ ∃ xml, _from_value v = Return xml) ∧
  (encodable v = false ↔ ∃ e, _from_value v = Raise e ∧ encoder_error e).
Proof.
  destruct (_from_value_domain_strong v) as [[H H'] _].
  split; (split; [assumption|]).
  - intros (xml & Hx). destruct (encodable v); [reflexivity|].
    destruct (H' eq_refl) as (e & He & _). congruence.
  - intros (e & He & _). destruct (encodable v); [|reflexivity].
    destruct (H eq_refl) as (xml & Hx). congruence.
Qed.

Lemma _from_value_domain_witness :
  (∃ xml, _from_value (PyList [PyTuple [PyInt 1; PyInt 2; PyObject "float"];
                               Inl PyNone]) = Return xml) ∧
  (∃ e, _from_value (PyList [PyInt 1; PyTuple [PyInt 2]; PyObject "float"])
        = Raise e ∧ encoder_error e).
Proof.
  split.
  - apply (_from_value_domain
             (PyList [PyTuple [PyInt 1; PyInt 2; PyObject "float"]; Inl PyNone])).
    reflexivity.
  - apply (_from_value_domain
             (PyList [PyInt 1; PyTuple [PyInt 2]; PyObject "float"])).
    reflexivity.
Defined.

(** ** What the decoder returns *)

Section Element_ind.
Variable P : Element → Prop.
Hypothesis HElement :
  ∀ tg attrs tx tl cs, Forall P cs → P (mkElement tg attrs tx tl cs).

Fixpoint Element_ind (xml : Element) : P xml :=
  match xml with
  | mkElement tg attrs tx tl cs =>
      HElement tg attrs tx tl cs
        ((fix all (l : list Element) : Forall P l :=
            match l with
            | [] => List.Forall_nil P
            | x :: l' => List.Forall_cons P x l' (Element_ind x) (all l')
            end) cs)
  end.
End Element_ind.

Lemma decoded_children (cs : list Element) (vs : list value) :
  Forall decodes_to_protocol cs → mapM _to_value cs = Return vs →
  forallb protocol_value vs = true.
Proof.
  intros IH H. apply mapM_Forall2 in H.
  induction H as [|c v cs vs Hcv _ IHl]; [reflexivity|].
  apply Forall_cons in IH as [Hc Hl]. simpl.
  rewrite (Hc v Hcv), (IHl Hl). reflexivity.
Qed.

Lemma protocol_value_Option (x : value) :
  protocol_value x = true → protocol_value (Option x) = true.
Proof. destruct x; auto. Qed.

Lemma decoded_first (cs : list Element) (C : value → value) (v : value) :
  Forall decodes_to_protocol cs →
  (∀ x, protocol_value x = true → protocol_value (C x) = true) →
  match cs with
  | c :: _ => x ← _to_value c; Return (C x)
  | [] => Raise IndexError
  end = Return v →
  protocol_value v = true.
Proof.
  intros IH HC H. destruct cs as [|c cs]; [discriminate H|].
  apply bind_inv in H as (x & Hx & H). injection H as <-.
  apply Forall_cons in IH as [Hc _]. apply HC, (Hc x Hx).
Qed.

Lemma decoded_record3 (cs : list Element) (v : value) :
  Forall decodes_to_protocol cs →
  mapM _to_value cs ≫= apply3 Goal = Return v → protocol_value v = true.
Proof.
  intros IH H. apply bind_inv in H as (vs & Hvs & H).
  pose proof (decoded_children _ _ IH Hvs) as Hp.
  destruct vs as [|a [|b [|c [|d vs]]]]; try discriminate H.
  injection H as <-. simpl in Hp |- *.
  rewrite andb_true_r in Hp. rewrite andb_assoc in Hp. exact Hp.
Qed.

Lemma decoded_record4 (C : value → value → value → value → value)
    (cs : list Element) (v : value) :
  Forall decodes_to_protocol cs →
  (∀ a b c d, protocol_value (C a b c d)
              = protocol_value a && protocol_value b && protocol_value c
                && protocol_value d) →
  mapM _to_value cs ≫= apply4 C = Return v → protocol_value v = true.
Proof.
  intros IH HC H. apply bind_inv in H as (vs & Hvs & H).
  pose proof (decoded_children _ _ IH Hvs) as Hp.
  destruct vs as [|a [|b [|c [|d [|e vs]]]]]; try discriminate H.
  injection H as <-. rewrite HC. simpl in Hp.
  rewrite andb_true_r in Hp. rewrite !andb_assoc in Hp. exact Hp.
Qed.

(** X17.  Whatever the decoder returns is a value of the protocol at
    every depth: booleans, integers, strings, lists, tuples, state
    identifiers and the namedtuples, with [None] nowhere but as the
    payload of [Option], and no object of any other class. *)
Theorem _to_value_protocol_value (xml : Element) (v : value) :
  _to_value xml = Return v → protocol_value v = true.
Proof.
  revert v. change (decodes_to_protocol xml).
  induction xml as [tg attrs tx tl cs IH] using Element_ind. intros v H.
  simpl in H.
  repeat match type of H with
         | context [decide ?Q] => destruct (decide Q) as [?|?]
         end;
    try discriminate H;
    try (injection H as <-; reflexivity);
    try (apply bind_inv in H as (z_ & _ & H); injection H as <-; reflexivity);
    try (apply bind_inv in H as (vs_ & Hvs_ & H); injection H as <-;
         apply (decoded_children _ _ IH Hvs_));
    try (refine (decoded_first cs _ v IH _ H);
         first [exact protocol_value_Option | intros x_ Hx_; exact Hx_]);
    try (apply (decoded_record3 _ _ IH H));
    try (refine (decoded_record4 _ cs v IH _ H); reflexivity).
  rewrite find_then_find in H.
  destruct (find _ cs) as [r|] eqn:Hf; [|discriminate H].
  apply find_some in Hf as [Hr _]. rewrite List.Forall_forall in IH.
  apply (IH r Hr v H).
Qed.

Lemma _to_value_protocol_value_witness :
  ∃ v,
    _to_value (mkElement "goals" ∅ None None
                 [mkElement "list" ∅ None None
                    [mkElement "option" {[ "val" := "none" ]} None None []];
                  mkElement "unit" ∅ None None [];
                  mkElement "state_id" {[ "val" := "3" ]} None None [];
                  mkElement "string" ∅ None None []])
    = Return v ∧ protocol_value v = true.
Proof.
  eexists. split; [vm_compute; reflexivity|].
  apply (_to_value_protocol_value
           (mkElement "goals" ∅ None None
              [mkElement "list" ∅ None None
                 [mkElement "option" {[ "val" := "none" ]} None None []];
               mkElement "unit" ∅ None None [];
               mkElement "state_id" {[ "val" := "3" ]} None None [];
               mkElement "string" ∅ None None []])).
  vm_compute. reflexivity.
Defined.
